(** * ISO 8601 datetime regular expressions ([regex_iso8601_datetime.js])

    The source file defines two ECMAScript regular expressions,
    [regex_iso8601_datetime_minimalist] (checking only) and
    [regex_iso8601_datetime] (named groups, for parsing), and runs
    [String.prototype.match] on a table of sample inputs.

    The development embeds the regular expressions as syntax trees, gives
    them the backtracking semantics of the ECMAScript specification
    (matchers in continuation-passing style over a state made of the end
    index and the captures), and proves properties of the two patterns. *)

From Stdlib Require Import NArith Ascii String.
From stdpp Require Import gmap strings list fin_maps.

Set Default Proof Using "Type".
Local Open Scope N_scope.
Local Open Scope nat_scope.

(** * Part I: the embedding and the definitions *)

(** ** Strings

    A JavaScript string is a sequence of UTF-16 code units.  Neither
    pattern carries the [u] flag, so matching works on code units. *)

Definition char := N.

Definition str := list char.

(** Code units of an ASCII literal. *)
Definition utf16 (s : string) : str :=
  map N_of_ascii (list_ascii_of_string s).

(** ** Pattern syntax *)

Module RegExp.

(** Patterns as written: groups are not numbered yet, and a back-reference
    is by number ([\1]) or by name ([\k<name>]). *)
Inductive Pattern :=
| PEmpty
| PChar (c : char)
| PClass (ranges : list (char * char))
| PSeq (p1 p2 : Pattern)
| PDisj (p1 p2 : Pattern)
| PQuant (p : Pattern) (min max : nat)
| PNonCapture (p : Pattern)
| PGroup (name : option string) (p : Pattern)
| PBackRef (n : nat)
| PNamedRef (name : string)
| PStart
| PEnd.

(** Patterns after group numbering: every capturing group carries its
    index (the number of left capturing parentheses up to and including
    its own), and every back-reference is by index. *)
Inductive Regex :=
| Empty
| Char (c : char)
| Class (ranges : list (char * char))
| Seq (r1 r2 : Regex)
| Disj (r1 r2 : Regex)
| Quant (r : Regex) (min max : nat)
| Group (i : nat) (r : Regex)
| BackRef (i : nat)
| Start
| End.

(** Names of the capturing groups, in the order of their left parentheses. *)
Fixpoint group_names (p : Pattern) : list (option string) :=
  match p with
  | PSeq p1 p2 | PDisj p1 p2 => group_names p1 ++ group_names p2
  | PQuant p _ _ | PNonCapture p => group_names p
  | PGroup name p => name :: group_names p
  | _ => []
  end.

Fixpoint name_index (names : list (option string)) (name : string) (i : nat)
  : option nat :=
  match names with
  | [] => None
  | n :: names' =>
      if decide (n = Some name) then Some i else name_index names' name (S i)
  end.

(** [number names p next] numbers the groups of [p] from [next] on and
    resolves named references with [names]; it returns the next free
    index as well.  A reference to a name that no group has is a syntax
    error of the pattern ([None]). *)
Fixpoint number (names : list (option string)) (p : Pattern) (next : nat)
  : option (Regex * nat) :=
  match p with
  | PEmpty => Some (Empty, next)
  | PChar c => Some (Char c, next)
  | PClass rs => Some (Class rs, next)
  | PSeq p1 p2 =>
      '(r1, n1) ← number names p1 next;
      '(r2, n2) ← number names p2 n1;
      Some (Seq r1 r2, n2)
  | PDisj p1 p2 =>
      '(r1, n1) ← number names p1 next;
      '(r2, n2) ← number names p2 n1;
      Some (Disj r1 r2, n2)
  | PQuant p min max =>
      '(r, n) ← number names p next;
      Some (Quant r min max, n)
  | PNonCapture p => number names p next
  | PGroup _ p =>
      '(r, n) ← number names p (S next);
      Some (Group next r, n)
  | PBackRef i => Some (BackRef i, next)
  | PNamedRef name =>
      i ← name_index names name 1;
      Some (BackRef i, next)
  | PStart => Some (Start, next)
  | PEnd => Some (End, next)
  end.

(** A compiled regular expression: the numbered pattern, and the table of
    group names. *)
Record RegExp := mkRegExp {
  body : Regex;
  names : list (option string);
}.

Definition compile (p : Pattern) : option RegExp :=
  '(r, _) ← number (group_names p) p 1;
  Some (mkRegExp r (group_names p)).

(** ** Matching *)

(** The state of a match: [endIndex] code units are consumed, [rest] is the
    input from [endIndex] on, and [captures] maps a group index to the
    substring it captured (no entry: undefined). *)
Record State := mkState {
  endIndex : nat;
  rest : str;
  captures : gmap nat str;
}.

Definition MatchResult := option State.

Definition Continuation := State → MatchResult.

Definition in_class (rs : list (char * char)) (c : char) : bool :=
  existsb (λ '(lo, hi), (lo <=? c)%N && (c <=? hi)%N) rs.

Global Arguments in_class : simpl never.

(** Consume [n] code units. *)
Definition advance (n : nat) (x : State) : State :=
  mkState (endIndex x + n) (drop n (rest x)) (captures x).

(** One code unit accepted by [ok]. *)
Definition CharacterSetMatcher (ok : char → bool) (x : State)
  (c : Continuation) : MatchResult :=
  match rest x with
  | [] => None
  | ch :: _ => if ok ch then c (advance 1 x) else None
  end.

Fixpoint is_prefix (s t : str) : bool :=
  match s, t with
  | [], _ => true
  | a :: s', b :: t' => (a =? b)%N && is_prefix s' t'
  | _ :: _, [] => false
  end.

(** A back-reference to a group that did not take part matches the empty
    string; otherwise the captured substring has to follow. *)
Definition BackreferenceMatcher (i : nat) (x : State) (c : Continuation)
  : MatchResult :=
  match captures x !! i with
  | None => c x
  | Some s => if is_prefix s (rest x) then c (advance (length s) x) else None
  end.

(** Indices of the capturing groups inside a pattern. *)
Fixpoint groups_in (r : Regex) : list nat :=
  match r with
  | Seq r1 r2 | Disj r1 r2 => groups_in r1 ++ groups_in r2
  | Quant r _ _ => groups_in r
  | Group i r => i :: groups_in r
  | _ => []
  end.

Definition clear_captures (gs : list nat) (x : State) : State :=
  mkState (endIndex x) (rest x) (foldr delete (captures x) gs).

(** Greedy quantifier [{min,max}] with a finite [max] (all that the two
    patterns use: [{n}], [{1,6}] and [?]).  Each iteration starts with the
    captures of the groups inside the atom cleared, and an iteration that
    is not required may not match the empty string. *)
Fixpoint RepeatMatcher (m : State → Continuation → MatchResult)
  (gs : list nat) (max min : nat) (x : State) (c : Continuation)
  : MatchResult :=
  match max with
  | 0 => c x
  | S max' =>
      let d : Continuation := λ y,
        if bool_decide (min = 0) && bool_decide (endIndex y = endIndex x)
        then None
        else RepeatMatcher m gs max' (pred min) y c in
      let xr := clear_captures gs x in
      if bool_decide (min = 0) then
        match m xr d with
        | Some z => Some z
        | None => c x
        end
      else m xr d
  end.

(** The substring consumed between two states. *)
Definition consumed (x y : State) : str :=
  take (endIndex y - endIndex x) (rest x).

Fixpoint matcher (r : Regex) (x : State) (c : Continuation) : MatchResult :=
  match r with
  | Empty => c x
  | Char ch => CharacterSetMatcher (N.eqb ch) x c
  | Class rs => CharacterSetMatcher (in_class rs) x c
  | Seq r1 r2 => matcher r1 x (λ y, matcher r2 y c)
  | Disj r1 r2 =>
      match matcher r1 x c with
      | Some z => Some z
      | None => matcher r2 x c
      end
  | Quant r' min max => RepeatMatcher (matcher r') (groups_in r') max min x c
  | Group i r' =>
      matcher r' x (λ y,
        c (mkState (endIndex y) (rest y) (<[i := consumed x y]> (captures y))))
  | BackRef i => BackreferenceMatcher i x c
  | Start => if bool_decide (endIndex x = 0) then c x else None
  | End => match rest x with [] => c x | _ :: _ => None end
  end.

(** [RegExpBuiltinExec] for a pattern without the [g] and [y] flags: the
    match is attempted at every start index from 0 on, and the first
    success wins.  The result is the start index and the final state. *)
Fixpoint exec_from (r : Regex) (i : nat) (input : str)
  : option (nat * State) :=
  match matcher r (mkState i input ∅) Some with
  | Some y => Some (i, y)
  | None =>
      match input with
      | [] => None
      | _ :: input' => exec_from r (S i) input'
      end
  end.

(** The array-like object a successful match returns. *)
Record MatchArray := mkMatchArray {
  index : nat;
  whole : str;
  groups_by_index : gmap nat str;
  group_names_of : list (option string);
}.

Definition exec (re : RegExp) (input : str) : option MatchArray :=
  '(i, y) ← exec_from (body re) 0 input;
  Some (mkMatchArray i (take (endIndex y - i) (drop i input))
          (captures y) (names re)).

(** [matches.groups.name]: [None] is [undefined]. *)
Definition group (name : string) (m : MatchArray) : option str :=
  i ← name_index (group_names_of m) name 1;
  groups_by_index m !! i.

(** [matches[i]] for [i >= 1]. *)
Definition group_at (i : nat) (m : MatchArray) : option str :=
  groups_by_index m !! i.

(** [RegExp.prototype.test]. *)
Definition test (re : RegExp) (input : str) : bool :=
  bool_decide (is_Some (exec re input)).

End RegExp.

Import RegExp.

(** ** The two patterns of the source *)

Definition code (a : ascii) : char := N_of_ascii a.

Definition U2212 : char := 8722%N.

Definition lit (a : ascii) : Pattern := PChar (code a).

(** [\d]: without the [u] and [i] flags, exactly the ASCII digits. *)
Definition digit : Pattern := PClass [(code "0", code "9")].

Definition digits (n : nat) : Pattern := PQuant digit n n.

Definition opt (p : Pattern) : Pattern := PQuant p 0 1.

Definition named (name : string) (p : Pattern) : Pattern :=
  PGroup (Some name) p.

(** A sequence of terms associates to the left, a disjunction to the
    right, as in the grammar of the ECMAScript specification. *)
Definition Alternative (ts : list Pattern) : Pattern :=
  match ts with
  | [] => PEmpty
  | t :: ts' => fold_left PSeq ts' t
  end.

Fixpoint Disjunction (ps : list Pattern) : Pattern :=
  match ps with
  | [] => PEmpty
  | [p] => p
  | p :: ps' => PDisj p (Disjunction ps')
  end.

Definition sign_class : Pattern :=
  PClass [(code "+", code "+"); (code "-", code "-"); (U2212, U2212)].

(** [/^\d{4}(?:(-?)\d{2}\1\d{2}|(-?)W\d{2}\2[1-7]|-?\d{3})T\d{2}
      (?:(:?)\d{2}(?:\3\d{2}(?:\.\d{1,6})?)?)?
      (?:Z|[+\-−]\d{2}(?::?\d{2}(?::?\d{2})?)?)?$/] *)
Definition regex_iso8601_datetime_minimalist_source : Pattern :=
  Alternative [
    PStart;
    digits 4;
    PNonCapture (Disjunction [
      Alternative [PGroup None (opt (lit "-")); digits 2; PBackRef 1; digits 2];
      Alternative [PGroup None (opt (lit "-")); lit "W"; digits 2; PBackRef 2;
                   PClass [(code "1", code "7")]];
      Alternative [opt (lit "-"); digits 3]]);
    lit "T";
    digits 2;
    opt (PNonCapture (Alternative [
      PGroup None (opt (lit ":")); digits 2;
      opt (PNonCapture (Alternative [
        PBackRef 3; digits 2;
        opt (PNonCapture (Alternative [lit "."; PQuant digit 1 6]))]))]));
    opt (PNonCapture (Disjunction [
      lit "Z";
      Alternative [
        sign_class; digits 2;
        opt (PNonCapture (Alternative [
          opt (lit ":"); digits 2;
          opt (PNonCapture (Alternative [opt (lit ":"); digits 2]))]))]]));
    PEnd].

(** [/^(?<date>(?<year>\d{4})(?:(?<ymd_hyphen>-?)(?<month>\d{2})
      \k<ymd_hyphen>(?<day>\d{2})|(?<ywd_hyphen>-?)W(?<week>\d{2})
      \k<ywd_hyphen>(?<weekday>[1-7])|-?(?<ordinalday>\d{3})))
      T(?<time>(?<hour>\d{2})(?:(?<hms_colon>:?)(?<minute>\d{2})
      (?:\k<hms_colon>(?<second>\d{2})(?:\.(?<microsecond>\d{1,6}))?)?)?)
      (?<tzinfo>Z|(?<tzsign>[+\-−])(?<tzhour>\d{2})
      (?::?(?<tzminute>\d{2})(?::?(?<tzsecond>\d{2}))?)?)?$/] *)
Definition regex_iso8601_datetime_source : Pattern :=
  Alternative [
    PStart;
    named "date" (Alternative [
      named "year" (digits 4);
      PNonCapture (Disjunction [
        Alternative [named "ymd_hyphen" (opt (lit "-"));
                     named "month" (digits 2);
                     PNamedRef "ymd_hyphen";
                     named "day" (digits 2)];
        Alternative [named "ywd_hyphen" (opt (lit "-"));
                     lit "W";
                     named "week" (digits 2);
                     PNamedRef "ywd_hyphen";
                     named "weekday" (PClass [(code "1", code "7")])];
        Alternative [opt (lit "-"); named "ordinalday" (digits 3)]])]);
    lit "T";
    named "time" (Alternative [
      named "hour" (digits 2);
      opt (PNonCapture (Alternative [
        named "hms_colon" (opt (lit ":"));
        named "minute" (digits 2);
        opt (PNonCapture (Alternative [
          PNamedRef "hms_colon";
          named "second" (digits 2);
          opt (PNonCapture (Alternative [
            lit ".";
            named "microsecond" (PQuant digit 1 6)]))]))]))]);
    opt (named "tzinfo" (Disjunction [
      lit "Z";
      Alternative [
        named "tzsign" sign_class;
        named "tzhour" (digits 2);
        opt (PNonCapture (Alternative [
          opt (lit ":");
          named "tzminute" (digits 2);
          opt (PNonCapture (Alternative [
            opt (lit ":");
            named "tzsecond" (digits 2)]))]))]]));
    PEnd].

Definition regex_iso8601_datetime_minimalist : RegExp :=
  Eval vm_compute in
    default (mkRegExp Empty []) (compile regex_iso8601_datetime_minimalist_source).

Definition regex_iso8601_datetime : RegExp :=
  Eval vm_compute in
    default (mkRegExp Empty []) (compile regex_iso8601_datetime_source).

(** ** Declarative semantics

    [Matches r x y]: from state [x], the pattern [r] can consume input and
    set captures so as to reach state [y].  The backtracking matcher
    explores exactly these runs, in priority order. *)

Definition set_capture (i : nat) (s : str) (y : State) : State :=
  mkState (endIndex y) (rest y) (<[i := s]> (captures y)).

Inductive Matches : Regex → State → State → Prop :=
| M_Empty x : Matches Empty x x
| M_Char ch x tl :
    rest x = ch :: tl → Matches (Char ch) x (advance 1 x)
| M_Class rs ch x tl :
    rest x = ch :: tl → in_class rs ch = true →
    Matches (Class rs) x (advance 1 x)
| M_Seq r1 r2 x y z :
    Matches r1 x y → Matches r2 y z → Matches (Seq r1 r2) x z
| M_DisjL r1 r2 x y : Matches r1 x y → Matches (Disj r1 r2) x y
| M_DisjR r1 r2 x y : Matches r2 x y → Matches (Disj r1 r2) x y
| M_Group i r x y :
    Matches r x y → Matches (Group i r) x (set_capture i (consumed x y) y)
| M_BackRefUndef i x :
    captures x !! i = None → Matches (BackRef i) x x
| M_BackRef i x s :
    captures x !! i = Some s → is_prefix s (rest x) = true →
    Matches (BackRef i) x (advance (length s) x)
| M_Start x : endIndex x = 0 → Matches Start x x
| M_End x : rest x = [] → Matches End x x
| M_QuantDone r min x : Matches (Quant r min 0) x x
| M_QuantStop r max x : Matches (Quant r 0 max) x x
| M_QuantStep r min max x y z :
    Matches r (clear_captures (groups_in r) x) y →
    (min = 0 → endIndex y ≠ endIndex x) →
    Matches (Quant r (pred min) max) y z →
    Matches (Quant r min (S max)) x z.

(** ** Running a pattern on a whole input *)

Definition start (i : nat) (input : str) : State := mkState i (drop i input) ∅.

(** Acceptance, declaratively: some run from some start index. *)
Definition in_language (r : Regex) (input : str) : Prop :=
  ∃ k y, k ≤ length input ∧ Matches r (start k input) y.

(** ** Patterns that differ in their capturing groups

    [rho i i'] relates a group of the first pattern to the group of the
    second one that plays its role.  Two states correspond when they are at
    the same place of the input and related groups hold the same capture;
    [fsim rho r r'] says that every run of [r] is mirrored by a run of [r']
    between corresponding states. *)

Definition srel (rho : nat → nat → Prop) (x x' : State) : Prop :=
  endIndex x = endIndex x' ∧ rest x = rest x' ∧
  ∀ i i', rho i i' → captures x !! i = captures x' !! i'.

Definition fsim (rho : nat → nat → Prop) (r r' : Regex) : Prop :=
  ∀ x x' y, srel rho x x' → Matches r x y →
    ∃ y', Matches r' x' y' ∧ srel rho y y'.

(** Two patterns simulate each other. *)
Definition sim (rho : nat → nat → Prop) (r r' : Regex) : Prop :=
  fsim rho r r' ∧ fsim (flip rho) r' r.

(** Groups 1, 2 and 3 of the minimalist pattern are [ymd_hyphen] (3),
    [ywd_hyphen] (6) and [hms_colon] (12) of the expanded one: the groups
    that a back-reference reads. *)
Definition group_map (j j' : nat) : Prop :=
  j = 1 ∧ j' = 3 ∨ j = 2 ∧ j' = 6 ∨ j = 3 ∧ j' = 12.

(** ** Runs of patterns without assertions

    A pattern without [^] and [$] does not look at the position or at
    the input that follows: [Run r c s c'] says that [r], started with
    captures [c], can consume exactly the string [s] and end with
    captures [c']. *)

Inductive Run : Regex → gmap nat str → str → gmap nat str → Prop :=
| R_Empty c : Run Empty c [] c
| R_Char ch c : Run (Char ch) c [ch] c
| R_Class rs ch c : in_class rs ch = true → Run (Class rs) c [ch] c
| R_Seq r1 r2 c0 s1 c1 s2 c2 :
    Run r1 c0 s1 c1 → Run r2 c1 s2 c2 → Run (Seq r1 r2) c0 (s1 ++ s2) c2
| R_DisjL r1 r2 c0 s c1 : Run r1 c0 s c1 → Run (Disj r1 r2) c0 s c1
| R_DisjR r1 r2 c0 s c1 : Run r2 c0 s c1 → Run (Disj r1 r2) c0 s c1
| R_Group i r c0 s c1 : Run r c0 s c1 → Run (Group i r) c0 s (<[i := s]> c1)
| R_BackRefUndef i c : c !! i = None → Run (BackRef i) c [] c
| R_BackRef i c s : c !! i = Some s → Run (BackRef i) c s c
| R_QuantDone r min c : Run (Quant r min 0) c [] c
| R_QuantStop r max c : Run (Quant r 0 max) c [] c
| R_QuantStep r min max c0 s1 c1 s2 c2 :
    Run r (foldr delete c0 (groups_in r)) s1 c1 →
    (min = 0 → s1 ≠ []) →
    Run (Quant r (pred min) max) c1 s2 c2 →
    Run (Quant r min (S max)) c0 (s1 ++ s2) c2.

Fixpoint anchor_free (r : Regex) : bool :=
  match r with
  | Start | End => false
  | Seq r1 r2 | Disj r1 r2 => anchor_free r1 && anchor_free r2
  | Quant r _ _ | Group _ r => anchor_free r
  | _ => true
  end.

(** ** The parts of the expanded pattern *)

(** The terms of a sequence, from left to right. *)
Fixpoint terms (r : Regex) : list Regex :=
  match r with
  | Seq r1 r2 => terms r1 ++ [r2]
  | _ => [r]
  end.

Definition date_group : Regex :=
  Eval vm_compute in nth 1 (terms (body regex_iso8601_datetime)) Empty.

Definition time_group : Regex :=
  Eval vm_compute in nth 3 (terms (body regex_iso8601_datetime)) Empty.

Definition tzinfo_group : Regex :=
  Eval vm_compute in
    match nth 4 (terms (body regex_iso8601_datetime)) Empty with
    | Quant r _ _ => r
    | _ => Empty
    end.

Definition is_digit (ch : char) : Prop := in_class [(code "0", code "9")] ch = true.

(** [n] ASCII digits. *)
Definition digit_string (n : nat) (s : str) : Prop :=
  length s = n ∧ Forall is_digit s.

(** An optional separator: nothing or the one character. *)
Definition separator (a : ascii) (s : str) : Prop := s = [] ∨ s = [code a].

(** What a run of [date_group] consumes and captures. *)
Inductive date_shape (c0 : gmap nat str) : str → gmap nat str → Prop :=
| Calendar yr h mo da :
    digit_string 4 yr → separator "-" h → digit_string 2 mo → digit_string 2 da →
    let d := yr ++ h ++ mo ++ h ++ da in
    date_shape c0 d
      (<[1 := d]> (<[5 := da]> (<[4 := mo]> (<[3 := h]> (<[2 := yr]> c0)))))
| Week yr h wk wd :
    digit_string 4 yr → separator "-" h → digit_string 2 wk →
    in_class [(code "1", code "7")] wd = true →
    let d := yr ++ h ++ [code "W"] ++ wk ++ h ++ [wd] in
    date_shape c0 d
      (<[1 := d]> (<[8 := [wd]]> (<[7 := wk]> (<[6 := h]> (<[2 := yr]> c0)))))
| Ordinal yr h od :
    digit_string 4 yr → separator "-" h → digit_string 3 od →
    let d := yr ++ h ++ od in
    date_shape c0 d (<[1 := d]> (<[9 := od]> (<[2 := yr]> c0))).

(** What a run of [time_group] consumes and captures.  The captures of the
    groups inside an optional part are cleared when the part is entered. *)
Inductive time_shape (c0 : gmap nat str) : str → gmap nat str → Prop :=
| Hour hr :
    digit_string 2 hr →
    time_shape c0 hr (<[10 := hr]> (<[11 := hr]> c0))
| HourMinute hr c mi :
    digit_string 2 hr → separator ":" c → digit_string 2 mi →
    let t := hr ++ c ++ mi in
    time_shape c0 t
      (<[10 := t]> (<[13 := mi]> (<[12 := c]>
         (foldr delete (<[11 := hr]> c0) [12; 13; 14; 15]))))
| HourMinuteSecond hr c mi se :
    digit_string 2 hr → separator ":" c → digit_string 2 mi →
    digit_string 2 se →
    let t := hr ++ c ++ mi ++ c ++ se in
    time_shape c0 t
      (<[10 := t]> (<[14 := se]> (foldr delete
         (<[13 := mi]> (<[12 := c]>
            (foldr delete (<[11 := hr]> c0) [12; 13; 14; 15])))
         [14; 15])))
| HourMinuteSecondFraction hr c mi se us :
    digit_string 2 hr → separator ":" c → digit_string 2 mi →
    digit_string 2 se →
    1 ≤ length us ≤ 6 → Forall is_digit us →
    let t := hr ++ c ++ mi ++ c ++ se ++ [code "."] ++ us in
    time_shape c0 t
      (<[10 := t]> (<[15 := us]> (foldr delete
         (<[14 := se]> (foldr delete
            (<[13 := mi]> (<[12 := c]>
               (foldr delete (<[11 := hr]> c0) [12; 13; 14; 15])))
            [14; 15]))
         [15]))).

Definition is_sign (ch : char) : Prop :=
  ch = code "+" ∨ ch = code "-" ∨ ch = U2212.

(** What a run of the optional [tzinfo] group consumes and captures. *)
Inductive tzinfo_shape (c0 : gmap nat str) : str → gmap nat str → Prop :=
| NoTzinfo : tzinfo_shape c0 [] c0
| Zulu :
    tzinfo_shape c0 [code "Z"]
      (<[16 := [code "Z"]]> (foldr delete c0 [16; 17; 18; 19; 20]))
| OffsetHour sg hh :
    is_sign sg → digit_string 2 hh →
    let z := [sg] ++ hh in
    tzinfo_shape c0 z
      (<[16 := z]> (<[18 := hh]> (<[17 := [sg]]>
         (foldr delete c0 [16; 17; 18; 19; 20]))))
| OffsetHourMinute sg hh c1 mm :
    is_sign sg → digit_string 2 hh → separator ":" c1 → digit_string 2 mm →
    let z := [sg] ++ hh ++ c1 ++ mm in
    tzinfo_shape c0 z
      (<[16 := z]> (<[19 := mm]> (foldr delete
         (<[18 := hh]> (<[17 := [sg]]>
            (foldr delete c0 [16; 17; 18; 19; 20])))
         [19; 20])))
| OffsetHourMinuteSecond sg hh c1 mm c2 ss :
    is_sign sg → digit_string 2 hh → separator ":" c1 → digit_string 2 mm →
    separator ":" c2 → digit_string 2 ss →
    let z := [sg] ++ hh ++ c1 ++ mm ++ c2 ++ ss in
    tzinfo_shape c0 z
      (<[16 := z]> (<[20 := ss]> (foldr delete
         (<[19 := mm]> (foldr delete
            (<[18 := hh]> (<[17 := [sg]]>
               (foldr delete c0 [16; 17; 18; 19; 20])))
            [19; 20]))
         [20]))).

(** ** The grammar of the specification

    The informal grammar of the specification (section 4.1), as sets of
    strings:

      datetime := date "T" time tzinfo?
      date     := year ( sep1 month sep1 day | sep2 "W" week sep2 weekday
                       | "-"? ordinalday )
      time     := hour ( sepT minute ( sepT second frac? )? )?
      frac     := "." digit{1,6}
      tzinfo   := "Z" | sign tzhour ( ":"? tzminute ( ":"? tzsecond )? )?

    where an occurrence of [sep1], [sep2] or [sepT] stands for the same
    string at both of its places. *)

Module Grammar.

Inductive date : str → Prop :=
| date_calendar year sep1 month day :
    digit_string 4 year → separator "-" sep1 →
    digit_string 2 month → digit_string 2 day →
    date (year ++ sep1 ++ month ++ sep1 ++ day)
| date_week year sep2 week weekday :
    digit_string 4 year → separator "-" sep2 → digit_string 2 week →
    in_class [(code "1", code "7")] weekday = true →
    date (year ++ sep2 ++ [code "W"] ++ week ++ sep2 ++ [weekday])
| date_ordinal year sep ordinalday :
    digit_string 4 year → separator "-" sep → digit_string 3 ordinalday →
    date (year ++ sep ++ ordinalday).

Inductive time : str → Prop :=
| time_hour hour :
    digit_string 2 hour → time hour
| time_minute hour sepT minute :
    digit_string 2 hour → separator ":" sepT → digit_string 2 minute →
    time (hour ++ sepT ++ minute)
| time_second hour sepT minute second :
    digit_string 2 hour → separator ":" sepT → digit_string 2 minute →
    digit_string 2 second →
    time (hour ++ sepT ++ minute ++ sepT ++ second)
| time_frac hour sepT minute second frac :
    digit_string 2 hour → separator ":" sepT → digit_string 2 minute →
    digit_string 2 second → 1 ≤ length frac ≤ 6 → Forall is_digit frac →
    time (hour ++ sepT ++ minute ++ sepT ++ second ++ [code "."] ++ frac).

Inductive tzinfo : str → Prop :=
| tzinfo_Z : tzinfo [code "Z"]
| tzinfo_hour sign tzhour :
    is_sign sign → digit_string 2 tzhour → tzinfo ([sign] ++ tzhour)
| tzinfo_minute sign tzhour c1 tzminute :
    is_sign sign → digit_string 2 tzhour → separator ":" c1 →
    digit_string 2 tzminute →
    tzinfo ([sign] ++ tzhour ++ c1 ++ tzminute)
| tzinfo_second sign tzhour c1 tzminute c2 tzsecond :
    is_sign sign → digit_string 2 tzhour → separator ":" c1 →
    digit_string 2 tzminute → separator ":" c2 → digit_string 2 tzsecond →
    tzinfo ([sign] ++ tzhour ++ c1 ++ tzminute ++ c2 ++ tzsecond).

Definition datetime (s : str) : Prop :=
  ∃ d t z, s = d ++ [code "T"] ++ t ++ z ∧
           date d ∧ time t ∧ (z = [] ∨ tzinfo z).

End Grammar.

(** ** The groups of a successful match *)

(** Everything that is known about the result of a successful [exec] of the
    expanded pattern: the three parts of the input, and the captures after
    each of them. *)
Record decomposition (input : str) (m : MatchArray)
    (d t z : str) (cd ct : gmap nat str) : Prop := {
  dec_index : index m = 0;
  dec_whole : whole m = input;
  dec_names : group_names_of m = names regex_iso8601_datetime;
  dec_input : input = d ++ [code "T"] ++ t ++ z;
  dec_date : date_shape ∅ d cd;
  dec_time : time_shape cd t ct;
  dec_tzinfo : tzinfo_shape ct z (groups_by_index m);
  dec_date_frame i : 1 ≤ i ≤ 9 → groups_by_index m !! i = cd !! i;
  dec_time_frame i : 10 ≤ i ≤ 15 → groups_by_index m !! i = ct !! i;
}.

(** ** Anchoring *)

Fixpoint starts_with_Start (r : Regex) : bool :=
  match r with
  | Start => true
  | Seq r1 _ => starts_with_Start r1
  | _ => false
  end.

Definition ends_with_End (r : Regex) : bool :=
  match r with
  | Seq _ End => true
  | _ => false
  end.

(** ** First and last characters of the strings of the grammar *)

Definition ends_in (P : char → Prop) (s : str) : Prop :=
  ∃ c, last s = Some c ∧ P c.

Definition digit_or_Z (c : char) : Prop := is_digit c ∨ c = code "Z".

(** ** Statements about matches *)

(** The result of [input.match(regex_iso8601_datetime)] when there is one. *)
Definition the_match (input : str) : MatchArray :=
  default (mkMatchArray 0 [] ∅ []) (exec regex_iso8601_datetime input).

(** A named group took part in the match, or is [undefined]. *)
Definition present (name : string) (m : MatchArray) : Prop :=
  is_Some (group name m).

Definition absent (name : string) (m : MatchArray) : Prop :=
  group name m = None.

(** The three date forms and their fields. *)
Definition calendar_form (m : MatchArray) : Prop :=
  present "month" m ∧ present "day" m.

Definition week_form (m : MatchArray) : Prop :=
  present "week" m ∧ present "weekday" m.

Definition ordinal_form (m : MatchArray) : Prop :=
  present "ordinalday" m.

Definition no_calendar_fields (m : MatchArray) : Prop :=
  absent "month" m ∧ absent "day" m ∧ absent "ymd_hyphen" m.

Definition no_week_fields (m : MatchArray) : Prop :=
  absent "week" m ∧ absent "weekday" m ∧ absent "ywd_hyphen" m.

Definition no_ordinal_fields (m : MatchArray) : Prop :=
  absent "ordinalday" m.

Definition exactly_one_date_form (m : MatchArray) : Prop :=
  calendar_form m ∧ no_week_fields m ∧ no_ordinal_fields m ∨
  week_form m ∧ no_calendar_fields m ∧ no_ordinal_fields m ∨
  ordinal_form m ∧ no_calendar_fields m ∧ no_week_fields m.

Definition rejected_by_both (input : str) : Prop :=
  test regex_iso8601_datetime input = false ∧
  test regex_iso8601_datetime_minimalist input = false.

Definition accepted_by_both (input : str) : Prop :=
  test regex_iso8601_datetime input = true ∧
  test regex_iso8601_datetime_minimalist input = true.

(** Anchoring in its strongest reading: an accepted input with one more
    character, of any kind, in front or at the end is rejected. *)
Definition extension_always_rejected (re : RegExp) : Prop :=
  ∀ (s : str) (c : char),
    test re s = true → test re (c :: s) = false ∧ test re (s ++ [c]) = false.

(** Anchoring as the patterns have it: a match is the whole input. *)
Definition whole_input_only (re : RegExp) : Prop :=
  ∀ input m, exec re input = Some m → index m = 0 ∧ whole m = input.

(** No input starts with a character other than a digit, or ends with a
    character other than a digit or [Z]. *)
Definition foreign_extension_rejected (re : RegExp) : Prop :=
  ∀ (s : str) (c : char),
    (¬ is_digit c → test re (c :: s) = false) ∧
    (¬ is_digit c → c ≠ code "Z" → test re (s ++ [c]) = false).

(** The time field of a match: hour alone, or hour and minute, or hour,
    minute and second, or all of them and a fraction. *)
Definition nested_time_fields (m : MatchArray) : Prop :=
  ∃ t hr, group "time" m = Some t ∧ group "hour" m = Some hr ∧ length hr = 2 ∧
    ((t = hr ∧ absent "minute" m ∧ absent "second" m ∧
      absent "microsecond" m) ∨
     (∃ c mi, separator ":" c ∧ length mi = 2 ∧ t = hr ++ c ++ mi ∧
        group "minute" m = Some mi ∧ absent "second" m ∧
        absent "microsecond" m) ∨
     (∃ c mi se, separator ":" c ∧ length mi = 2 ∧ length se = 2 ∧
        t = hr ++ c ++ mi ++ c ++ se ∧
        group "minute" m = Some mi ∧ group "second" m = Some se ∧
        absent "microsecond" m) ∨
     (∃ c mi se us, separator ":" c ∧ length mi = 2 ∧ length se = 2 ∧
        1 ≤ length us ≤ 6 ∧ Forall is_digit us ∧
        t = hr ++ c ++ mi ++ c ++ se ++ [code "."] ++ us ∧
        group "minute" m = Some mi ∧ group "second" m = Some se ∧
        group "microsecond" m = Some us)).

(** The timezone designator of a match. *)
Definition timezone_fields (m : MatchArray) : Prop :=
  (absent "tzinfo" m ∧ absent "tzsign" m ∧ absent "tzhour" m ∧
   absent "tzminute" m ∧ absent "tzsecond" m) ∨
  (group "tzinfo" m = Some [code "Z"] ∧ absent "tzsign" m ∧
   absent "tzhour" m ∧ absent "tzminute" m ∧ absent "tzsecond" m) ∨
  (∃ sg hh, is_sign sg ∧ length hh = 2 ∧
     group "tzsign" m = Some [sg] ∧ group "tzhour" m = Some hh ∧
     ((group "tzinfo" m = Some ([sg] ++ hh) ∧
       absent "tzminute" m ∧ absent "tzsecond" m) ∨
      (∃ c1 mm, separator ":" c1 ∧ length mm = 2 ∧
         group "tzinfo" m = Some ([sg] ++ hh ++ c1 ++ mm) ∧
         group "tzminute" m = Some mm ∧ absent "tzsecond" m) ∨
      (∃ c1 mm c2 ss, separator ":" c1 ∧ length mm = 2 ∧
         separator ":" c2 ∧ length ss = 2 ∧
         group "tzinfo" m = Some ([sg] ++ hh ++ c1 ++ mm ++ c2 ++ ss) ∧
         group "tzminute" m = Some mm ∧ group "tzsecond" m = Some ss))).

(** ** The demonstration loop of the source *)

(** [product(...iterables)]: the sequence of the tuples that the generator
    yields, for iterables that are arrays (they are iterated again for
    every item of the iterables before them).  Every tuple is a fresh
    array; the tuples are generated with the first iterable varying
    slowest. *)
Fixpoint product {A} (iterables : list (list A)) : list (list A) :=
  match iterables with
  | [] => [[]]
  | first_iterable :: last_iterables =>
      flat_map (λ item, map (cons item) (product last_iterables)) first_iterable
  end.

Definition test_cases_date : list str :=
  map utf16 ["2020-01-02"; "20200102"; "2020-W01-2"; "2020W012"; "2020123";
             "2020-123"].

Definition test_cases_time : list str :=
  map utf16 ["12:34:56"; "123456"; "12:34:56.123456"; "123456.123456"].

Definition test_cases_tzinfo : list str :=
  map utf16 [""; "Z"; "+12:34"; "+1234"; "+12"; "+123456"].

(** What one turn of the loop prints. *)
Inductive Report :=
| Matched (date time tzinfo : option str)
| NotMatched.

Global Instance Report_eq_dec : EqDecision Report.
Proof. solve_decision. Defined.

Definition report (test_case : str) : Report :=
  match exec regex_iso8601_datetime test_case with
  | Some matches =>
      Matched (group "date" matches) (group "time" matches)
        (group "tzinfo" matches)
  | None => NotMatched
  end.

Definition expected_report (triple : list str) : bool :=
  match triple with
  | [test_case_date; test_case_time; test_case_tzinfo] =>
      bool_decide
        (report (test_case_date ++ utf16 "T" ++ test_case_time
                 ++ test_case_tzinfo)
         = Matched (Some test_case_date) (Some test_case_time)
             (if decide (test_case_tzinfo = []) then None
              else Some test_case_tzinfo))
  | _ => false
  end.

(** *** What the loop prints

    [`${x}`] in a template literal: the string itself, or "undefined" for
    a missing value. *)
Definition template (x : option str) : str := default (utf16 "undefined") x.

(** One turn of the loop: the array destructuring takes the first three
    elements of the tuple, and [console.log] receives one line. *)
Definition console_log_line (tuple : list str) : str :=
  let test_case_date := tuple !! 0 in
  let test_case_time := tuple !! 1 in
  let test_case_tzinfo := tuple !! 2 in
  let test_case :=
    template test_case_date ++ utf16 "T" ++ template test_case_time
    ++ template test_case_tzinfo in
  match exec regex_iso8601_datetime test_case with
  | Some matches =>
      test_case ++ utf16 ": date=" ++ template (group "date" matches)
      ++ utf16 ", time=" ++ template (group "time" matches)
      ++ utf16 ", tzinfo=" ++ template (group "tzinfo" matches)
  | None => test_case ++ utf16 ": not matched"
  end.

(** The lines printed by the loop over three lists of samples. *)
Definition console_output (dates times tzinfos : list str) : list str :=
  map console_log_line (product [dates; times; tzinfos]).

(** The line of a matched sample. *)
Definition matched_line (d t z : str) : str :=
  (d ++ utf16 "T" ++ t ++ z) ++ utf16 ": date=" ++ d ++ utf16 ", time=" ++ t
  ++ utf16 ", tzinfo=" ++ (if decide (z = []) then utf16 "undefined" else z).

(** *** Characters of the grammar *)

Definition date_char (c : char) : Prop :=
  is_digit c ∨ c = code "-" ∨ c = code "W".
Definition time_char (c : char) : Prop :=
  is_digit c ∨ c = code ":" ∨ c = code ".".
Definition tzinfo_char (c : char) : Prop :=
  is_digit c ∨ c = code ":" ∨ c = code "Z" ∨ is_sign c.

(** The characters other than digits that the patterns mention. *)
Definition punctuation : list char :=
  [code "-"; code "W"; code "T"; code ":"; code "."; code "Z"; code "+"; U2212].
Definition in_alphabet (c : char) : Prop := is_digit c ∨ c ∈ punctuation.

(** A string that is empty or starts with a character outside [P]. *)
Definition starts_outside (P : char → Prop) (z : str) : Prop :=
  z = [] ∨ ∃ c z', z = c :: z' ∧ ¬ P c.

(** ** The click handler of the collapsible elements

    The listener that the source adds to every element of class
    [collapsible].  Of the document it touches the class list of the element
    it is called on ([this]) and the inline [display] style of the next
    sibling element. *)

Module Collapsible.

(** [DOMTokenList.toggle(token)]: a class list is a list of tokens without
    repetition; a token that is present is removed, a token that is absent
    is added at the end. *)
Definition toggle (token : string) (tokens : list string) : list string :=
  if decide (token ∈ tokens) then filter (λ t, t ≠ token) tokens
  else tokens ++ [token].

(** What the handler sees of [this]: its class list, and the value of
    [style.display] of [nextElementSibling] ([None]: there is no next
    sibling, [nextElementSibling] is [null]). *)
Record Target := mkTarget {
  classList : list string;
  nextElementSibling : option string;
}.

Inductive Outcome :=
| Returned
| TypeError.

(** The handler of [regex_iso8601_datetime.js]: the class is toggled first,
    then the display of the sibling is read, which throws when the sibling
    is [null]. *)
Definition on_click (this : Target) : Target * Outcome :=
  let classList' := toggle "active" (classList this) in
  match nextElementSibling this with
  | None => (mkTarget classList' None, TypeError)
  | Some display =>
      (mkTarget classList'
         (Some (if decide (display = "block") then "none" else "block")),
       Returned)
  end.

(** The handler of the second file only toggles the class. *)
Definition on_click_class_only (this : Target) : Target :=
  mkTarget (toggle "active" (classList this)) (nextElementSibling this).

(** The panel after an element is shown exactly when the element is
    marked active. *)
Definition in_sync (this : Target) : Prop :=
  ∃ display, nextElementSibling this = Some display ∧
             ("active" ∈ classList this ↔ display = "block").

End Collapsible.

(** * Part II: lemmas and theorems *)

(** ** The two patterns are well formed *)

Lemma regex_iso8601_datetime_minimalist_compiled :
  compile regex_iso8601_datetime_minimalist_source
  = Some regex_iso8601_datetime_minimalist.
Proof. reflexivity. Qed.

Lemma regex_iso8601_datetime_compiled :
  compile regex_iso8601_datetime_source = Some regex_iso8601_datetime.
Proof. reflexivity. Qed.

(** ** The matcher finds a run whenever there is one *)

Section MatcherCorrect.

Lemma CharacterSetMatcher_sound ok x c z :
  CharacterSetMatcher ok x c = Some z →
  ∃ ch tl, rest x = ch :: tl ∧ ok ch = true ∧ c (advance 1 x) = Some z.
Proof.
  unfold CharacterSetMatcher. destruct (rest x) as [|ch tl]; [done|].
  destruct (ok ch) eqn:Hok; [|done]. eauto.
Qed.

Lemma CharacterSetMatcher_complete ok x c ch tl :
  rest x = ch :: tl → ok ch = true →
  CharacterSetMatcher ok x c = c (advance 1 x).
Proof. unfold CharacterSetMatcher. by intros -> ->. Qed.

Lemma RepeatMatcher_sound r m :
  (∀ x c z, m x c = Some z → ∃ y, Matches r x y ∧ c y = Some z) →
  ∀ max min x c z,
    RepeatMatcher m (groups_in r) max min x c = Some z →
    ∃ y, Matches (Quant r min max) x y ∧ c y = Some z.
Proof.
  intros Hm max. induction max as [|max IH]; intros min x c z; simpl.
  { intros Hc. exists x. split; [constructor | done]. }
  assert (Hstep : ∀ z', m (clear_captures (groups_in r) x)
      (λ y, if bool_decide (min = 0) && bool_decide (endIndex y = endIndex x)
            then None
            else RepeatMatcher m (groups_in r) max (pred min) y c) = Some z' →
      ∃ y, Matches (Quant r min (S max)) x y ∧ c y = Some z').
  { intros z' H. apply Hm in H as (y & Hy & Hd).
    destruct (bool_decide (min = 0) && bool_decide (endIndex y = endIndex x))
      eqn:Hb; [done|].
    apply IH in Hd as (y' & Hy' & Hc). exists y'. split; [|done].
    eapply M_QuantStep; [done | | done].
    intros ->. rewrite bool_decide_eq_true_2 in Hb by done. simpl in Hb.
    by apply bool_decide_eq_false in Hb. }
  case_bool_decide as Hmin; [|by apply Hstep].
  destruct (m _ _) as [z'|] eqn:Hrun.
  - intros [= <-]. by apply Hstep.
  - intros Hc. subst min. exists x. split; [constructor | done].
Qed.

Theorem matcher_sound r x c z :
  matcher r x c = Some z → ∃ y, Matches r x y ∧ c y = Some z.
Proof.
  revert x c z.
  induction r as [|ch|rs|r1 IH1 r2 IH2|r1 IH1 r2 IH2|r IH min max|i r IH|i| |];
    intros x c z; simpl.
  - intros H. exists x. split; [constructor | done].
  - intros H. apply CharacterSetMatcher_sound in H as (a & tl & Hr & Hok & Hc).
    apply N.eqb_eq in Hok as <-. eexists. split; [by econstructor | done].
  - intros H. apply CharacterSetMatcher_sound in H as (a & tl & Hr & Hok & Hc).
    eexists. split; [by econstructor | done].
  - intros H. apply IH1 in H as (y & Hy & H2). apply IH2 in H2 as (y' & Hy' & Hc).
    exists y'. split; [by econstructor | done].
  - destruct (matcher r1 x c) as [z'|] eqn:H1.
    + intros [= <-]. apply IH1 in H1 as (y & Hy & Hc).
      exists y. split; [by apply M_DisjL | done].
    + intros H. apply IH2 in H as (y & Hy & Hc).
      exists y. split; [by apply M_DisjR | done].
  - by apply RepeatMatcher_sound.
  - intros H. apply IH in H as (y & Hy & Hc).
    eexists. split; [by apply M_Group | done].
  - unfold BackreferenceMatcher. destruct (captures x !! i) as [s|] eqn:Hcap.
    + destruct (is_prefix s (rest x)) eqn:Hp; [|done].
      intros H. eexists. split; [by eapply M_BackRef | done].
    + intros H. exists x. split; [by apply M_BackRefUndef | done].
  - case_bool_decide as Hx; [|done]. intros H.
    exists x. split; [by constructor | done].
  - destruct (rest x) eqn:Hr; [|done]. intros H.
    exists x. split; [by constructor | done].
Qed.

Theorem matcher_complete r x y :
  Matches r x y → ∀ c, is_Some (c y) → is_Some (matcher r x c).
Proof.
  induction 1 as [x|ch x tl Hr|rs ch x tl Hr Hok|r1 r2 x y z _ IH1 _ IH2
    |r1 r2 x y _ IH|r1 r2 x y _ IH|i r x y _ IH|i x Hcap|i x s Hcap Hp
    |x Hx|x Hr|r min x|r max x|r min max x y z _ IH1 Hne _ IH2];
    intros c Hc; simpl.
  - done.
  - erewrite CharacterSetMatcher_complete; [done.. | by apply N.eqb_eq].
  - by erewrite CharacterSetMatcher_complete.
  - apply IH1, IH2, Hc.
  - destruct (IH c Hc) as [z ->]. by eexists.
  - destruct (matcher r1 x c); [by eexists | by apply IH].
  - by apply IH.
  - unfold BackreferenceMatcher. by rewrite Hcap.
  - unfold BackreferenceMatcher. by rewrite Hcap, Hp.
  - by rewrite bool_decide_eq_true_2.
  - by rewrite Hr.
  - done.
  - destruct max as [|max]; simpl; [done|].
    destruct (matcher r _ _); [by eexists | done].
  - assert (Hstep : is_Some (matcher r (clear_captures (groups_in r) x)
      (λ y, if bool_decide (min = 0) && bool_decide (endIndex y = endIndex x)
            then None
            else RepeatMatcher (matcher r) (groups_in r) max (pred min) y c))).
    { apply IH1. destruct (bool_decide (min = 0)) eqn:Hmin; simpl.
      - apply bool_decide_eq_true in Hmin.
        rewrite bool_decide_eq_false_2 by auto. by apply IH2.
      - by apply IH2. }
    destruct Hstep as [z' Hz']. rewrite Hz'.
    case_bool_decide; by eexists.
Qed.

End MatcherCorrect.

(** ** General facts about runs *)

Section Runs.

(** A run consumes a prefix of the remaining input. *)
Lemma Matches_consumes r x y :
  Matches r x y →
  ∃ s, rest x = s ++ rest y ∧ endIndex y = endIndex x + length s.
Proof.
  induction 1 as [x|ch x tl Hr|rs ch x tl Hr Hok|r1 r2 x y z _ IH1 _ IH2
    |r1 r2 x y _ IH|r1 r2 x y _ IH|i r x y _ IH|i x Hcap|i x s Hcap Hp
    |x Hx|x Hr|r min x|r max x|r min max x y z _ IH1 Hne _ IH2]; simpl;
    try (exists []; split; [done | simpl; lia]); try done.
  - exists [ch]. rewrite Hr. simpl. by rewrite drop_0.
  - exists [ch]. rewrite Hr. simpl. by rewrite drop_0.
  - destruct IH1 as (s1 & Hs1 & He1), IH2 as (s2 & Hs2 & He2).
    exists (s1 ++ s2). rewrite length_app, <-(assoc_L (++)), <-Hs2.
    split; [done | lia].
  - exists s. split; [|done]. clear Hcap. revert Hp.
    generalize (rest x) as t. induction s as [|a s IH]; intros t; simpl.
    + by rewrite drop_0.
    + destruct t as [|b t]; [done|]. intros [->%N.eqb_eq Hp]%andb_true_iff.
      simpl. f_equal. by apply IH.
  - destruct IH1 as (s1 & Hs1 & He1), IH2 as (s2 & Hs2 & He2). simpl in *.
    exists (s1 ++ s2). rewrite length_app, <-(assoc_L (++)), <-Hs2.
    split; [done | lia].
Qed.

Lemma Matches_consumed r x y :
  Matches r x y →
  rest x = consumed x y ++ rest y ∧
  endIndex y = endIndex x + length (consumed x y).
Proof.
  intros (s & Hs & He)%Matches_consumes. unfold consumed.
  rewrite Hs, He. replace (endIndex x + length s - endIndex x) with (length s) by lia.
  by rewrite take_app_length.
Qed.

Lemma lookup_clear gs (m : gmap nat str) i :
  foldr delete m gs !! i = if decide (i ∈ gs) then None else m !! i.
Proof.
  induction gs as [|g gs IH]; cbn [foldr].
  - destruct (decide (i ∈ [])) as [Hin|_]; [by apply elem_of_nil in Hin | done].
  - rewrite lookup_delete, IH.
    destruct (decide (i ∈ g :: gs)) as [Hin'|Hin'].
    + apply elem_of_cons in Hin' as [->|Hin].
      * by destruct (decide (g = g)).
      * destruct (decide (g = i)); [done|]. by destruct (decide (i ∈ gs)).
    + destruct (decide (g = i)) as [->|Hne].
      * destruct Hin'. apply elem_of_cons. by left.
      * destruct (decide (i ∈ gs)) as [Hin|Hin]; [|done].
        destruct Hin'. apply elem_of_cons. by right.
Qed.

(** A run changes only the captures of the groups inside the pattern. *)
Lemma Matches_frame r x y i :
  Matches r x y → i ∉ groups_in r → captures y !! i = captures x !! i.
Proof.
  induction 1 as [x|ch x tl Hr|rs ch x tl Hr Hok|r1 r2 x y z _ IH1 _ IH2
    |r1 r2 x y _ IH|r1 r2 x y _ IH|j r x y _ IH|j x Hcap|j x s Hcap Hp
    |x Hx|x Hr|r min x|r max x|r min max x y z _ IH1 Hne _ IH2]; simpl;
    intros Hi; try done.
  - rewrite IH2, IH1; set_solver.
  - apply IH. set_solver.
  - apply IH. set_solver.
  - rewrite lookup_insert_ne by set_solver. apply IH. set_solver.
  - rewrite IH2, IH1 by done. simpl. rewrite lookup_clear. by case_decide.
Qed.

End Runs.

(** ** Running a pattern on a whole input *)

Lemma exec_from_sound r i input j y :
  exec_from r i input = Some (j, y) →
  ∃ k, j = i + k ∧ k ≤ length input ∧ Matches r (mkState j (drop k input) ∅) y.
Proof.
  revert i. induction input as [|a input IH]; intros i; simpl.
  - destruct (matcher r _ Some) as [z|] eqn:Hm; [|done]. intros [= <- <-].
    apply matcher_sound in Hm as (y & Hy & [= ->]).
    exists 0. rewrite Nat.add_0_r. done.
  - destruct (matcher r _ Some) as [z|] eqn:Hm.
    + intros [= <- <-]. apply matcher_sound in Hm as (y & Hy & [= ->]).
      exists 0. rewrite Nat.add_0_r. split; [done|]. split; [simpl; lia | done].
    + intros (k & -> & Hk & Hy)%IH. exists (S k).
      split; [lia|]. split; [simpl; lia|]. by replace (i + S k) with (S i + k) by lia.
Qed.

Lemma exec_from_complete r i input k y :
  k ≤ length input → Matches r (mkState (i + k) (drop k input) ∅) y →
  is_Some (exec_from r i input).
Proof.
  revert i k. induction input as [|a input IH]; intros i k Hk Hy; simpl in *.
  - assert (k = 0) as -> by lia. rewrite Nat.add_0_r in Hy. simpl in Hy.
    destruct (matcher_complete _ _ _ Hy Some) as [z ->]; by eexists.
  - destruct (matcher r _ Some) as [z|] eqn:Hm; [by eexists|].
    destruct k as [|k].
    + rewrite Nat.add_0_r in Hy. simpl in Hy.
      destruct (matcher_complete _ _ _ Hy Some) as [z Hz]; [by eexists|congruence].
    + apply (IH (S i) k); [lia|]. by replace (S i + k) with (i + S k) by lia.
Qed.

Lemma test_in_language re input :
  test re input = true ↔ in_language (body re) input.
Proof.
  unfold test, exec, in_language. rewrite bool_decide_eq_true. split.
  - intros [m Hm]. destruct (exec_from _ 0 input) as [[j y]|] eqn:He; [|done].
    apply exec_from_sound in He as (k & -> & Hk & Hy). by exists k, y.
  - intros (k & y & Hk & Hy).
    destruct (exec_from_complete (body re) 0 input k y Hk Hy) as [[j z] ->].
    by eexists.
Qed.

(** ** Simulation between patterns

    The simulation is preserved by every construct of the syntax, and a
    capturing group that no related group looks at may be added or removed
    on either side. *)

Section Simulation.

Context (rho : nat → nat → Prop).

Lemma srel_advance n x x' :
  srel rho x x' → srel rho (advance n x) (advance n x').
Proof. intros (He & Hr & Hc). split_and!; simpl; [congruence.. | done]. Qed.

Lemma srel_consumed x x' y y' :
  srel rho x x' → srel rho y y' → consumed x y = consumed x' y'.
Proof. intros (He & Hr & _) (He' & _ & _). unfold consumed. congruence. Qed.

Lemma fsim_Empty : fsim rho Empty Empty.
Proof. intros x x' y Hx Hy. inversion Hy; subst. exists x'. split; [constructor | done]. Qed.

Lemma fsim_Char ch : fsim rho (Char ch) (Char ch).
Proof.
  intros x x' y Hx Hy. inversion Hy; subst. exists (advance 1 x').
  split; [|by apply srel_advance].
  destruct Hx as (_ & Hr & _). econstructor. by rewrite <-Hr.
Qed.

Lemma fsim_Class rs : fsim rho (Class rs) (Class rs).
Proof.
  intros x x' y Hx Hy. inversion Hy; subst. exists (advance 1 x').
  split; [|by apply srel_advance].
  destruct Hx as (_ & Hr & _). econstructor; [by rewrite <-Hr | done].
Qed.

Lemma fsim_Start : fsim rho Start Start.
Proof.
  intros x x' y Hx Hy. inversion Hy; subst. exists x'. split; [|done].
  destruct Hx as (He & _). constructor. congruence.
Qed.

Lemma fsim_End : fsim rho End End.
Proof.
  intros x x' y Hx Hy. inversion Hy; subst. exists x'. split; [|done].
  destruct Hx as (_ & Hr & _). constructor. congruence.
Qed.

Lemma fsim_Seq r1 r2 r1' r2' :
  fsim rho r1 r1' → fsim rho r2 r2' → fsim rho (Seq r1 r2) (Seq r1' r2').
Proof.
  intros H1 H2 x x' z Hx Hz. inversion Hz as [| | |? ? ? y ? Hy1 Hy2| | | | | | | | | |]; subst.
  destruct (H1 _ _ _ Hx Hy1) as (y' & Hy1' & Hyy).
  destruct (H2 _ _ _ Hyy Hy2) as (z' & Hy2' & Hzz).
  exists z'. split; [by econstructor | done].
Qed.

Lemma fsim_Disj r1 r2 r1' r2' :
  fsim rho r1 r1' → fsim rho r2 r2' → fsim rho (Disj r1 r2) (Disj r1' r2').
Proof.
  intros H1 H2 x x' y Hx Hy. inversion Hy as [| | | |? ? ? ? Hy1|? ? ? ? Hy2| | | | | | | |]; subst.
  - destruct (H1 _ _ _ Hx Hy1) as (y' & Hy' & Hyy). exists y'. split; [by apply M_DisjL | done].
  - destruct (H2 _ _ _ Hx Hy2) as (y' & Hy' & Hyy). exists y'. split; [by apply M_DisjR | done].
Qed.

Lemma fsim_Seq_assoc_l a b c r' :
  fsim rho (Seq a (Seq b c)) r' → fsim rho (Seq (Seq a b) c) r'.
Proof.
  intros H x x' z Hx Hz. apply (H x x' z Hx).
  inversion Hz as [| | |? ? ? y ? Hab Hc| | | | | | | | | |]; subst.
  inversion Hab as [| | |? ? ? w ? Ha Hb| | | | | | | | | |]; subst.
  eauto using Matches.
Qed.

Lemma fsim_Seq_assoc_r r a b c :
  fsim rho r (Seq a (Seq b c)) → fsim rho r (Seq (Seq a b) c).
Proof.
  intros H x x' z Hx Hz. destruct (H x x' z Hx Hz) as (z' & Hz' & Hzz).
  exists z'. split; [|done].
  inversion Hz' as [| | |? ? ? y ? Ha Hbc| | | | | | | | | |]; subst.
  inversion Hbc as [| | |? ? ? w ? Hb Hc| | | | | | | | | |]; subst.
  eauto using Matches.
Qed.

(** Groups that play the same role. *)
Lemma fsim_Group i i' r r' :
  (∀ j j', rho j j' → j = i ↔ j' = i') →
  fsim rho r r' → fsim rho (Group i r) (Group i' r').
Proof.
  intros Hi H x x' z Hx Hz. inversion Hz as [| | | | | |? ? ? y Hy| | | | | | |]; subst.
  destruct (H _ _ _ Hx Hy) as (y' & Hy' & Hyy).
  eexists. split; [by apply M_Group|].
  destruct Hyy as (He & Hr & Hc). split_and!; simpl; [done..|].
  intros j j' Hj. rewrite !lookup_insert.
  rewrite (srel_consumed x x' y y') by done.
  destruct (decide (i = j)) as [->|Hne], (decide (i' = j')) as [->|Hne'];
    [done| | |by apply Hc].
  - destruct Hne'. symmetry. by apply (Hi j j').
  - destruct Hne. symmetry. by apply (Hi j j').
Qed.

(** A group of the first pattern that no related group looks at. *)
Lemma fsim_Group_l i r r' :
  (∀ j j', rho j j' → j ≠ i) → fsim rho r r' → fsim rho (Group i r) r'.
Proof.
  intros Hi H x x' z Hx Hz. inversion Hz as [| | | | | |? ? ? y Hy| | | | | | |]; subst.
  destruct (H _ _ _ Hx Hy) as (y' & Hy' & (He & Hr & Hc)).
  exists y'. split; [done|]. split_and!; simpl; [done..|].
  intros j j' Hj. rewrite lookup_insert_ne; [by apply Hc|].
  intros ->. by eapply Hi.
Qed.

Lemma fsim_Group_r i' r r' :
  (∀ j j', rho j j' → j' ≠ i') → fsim rho r r' → fsim rho r (Group i' r').
Proof.
  intros Hi H x x' y Hx Hy.
  destruct (H _ _ _ Hx Hy) as (y' & Hy' & (He & Hr & Hc)).
  eexists. split; [by apply M_Group|]. split_and!; simpl; [done..|].
  intros j j' Hj. rewrite lookup_insert_ne; [by apply Hc|].
  intros ->. by eapply Hi.
Qed.

Lemma fsim_BackRef i i' : rho i i' → fsim rho (BackRef i) (BackRef i').
Proof.
  intros Hi x x' y Hx Hy. pose proof Hx as (He & Hr & Hc).
  inversion Hy as [| | | | | | |? ? Hcap|? ? s Hcap Hp| | | | |]; subst.
  - exists x'. split; [|done]. apply M_BackRefUndef. by rewrite <-(Hc i i').
  - exists (advance (length s) x'). split; [|by apply srel_advance].
    apply M_BackRef; [by rewrite <-(Hc i i') | by rewrite <-Hr].
Qed.

Lemma srel_clear gs gs' x x' :
  (∀ j j', rho j j' → j ∈ gs ↔ j' ∈ gs') →
  srel rho x x' → srel rho (clear_captures gs x) (clear_captures gs' x').
Proof.
  intros Hg (He & Hr & Hc). split_and!; simpl; [done..|].
  intros j j' Hj. rewrite !lookup_clear.
  destruct (decide (j ∈ gs)) as [Hin|Hin], (decide (j' ∈ gs')) as [Hin'|Hin'];
    [done| | |by apply Hc].
  - destruct Hin'. by apply (Hg j j').
  - destruct Hin. by apply (Hg j j').
Qed.

Lemma fsim_Quant r r' min max :
  (∀ j j', rho j j' → j ∈ groups_in r ↔ j' ∈ groups_in r') →
  fsim rho r r' → fsim rho (Quant r min max) (Quant r' min max).
Proof.
  intros Hg H. revert min. induction max as [|max IH]; intros min x x' z Hx Hz.
  - inversion Hz; subst; exists x'; (split; [constructor | done]).
  - inversion Hz as [| | | | | | | | | | | |? ? ?
      |? ? ? ? y ? Hy Hne Hrest]; subst.
    + exists x'. split; [constructor | done].
    + pose proof (srel_clear _ _ _ _ Hg Hx) as Hxc.
      destruct (H _ _ _ Hxc Hy) as (y' & Hy' & Hyy).
      destruct (IH _ _ _ _ Hyy Hrest) as (z' & Hz' & Hzz).
      exists z'. split; [|done]. eapply M_QuantStep; [done| |done].
      destruct Hx as (He & _), Hyy as (He' & _). intros Hm. specialize (Hne Hm). congruence.
Qed.

End Simulation.

Lemma srel_flip rho x x' : srel (flip rho) x' x ↔ srel rho x x'.
Proof.
  unfold srel, flip. split; intros (He & Hr & Hc); split_and!; try done;
    intros i i' Hi; symmetry; by apply Hc.
Qed.

(** Patterns that simulate each other accept the same inputs. *)
Lemma sim_in_language rho r r' input :
  sim rho r r' → in_language r input ↔ in_language r' input.
Proof.
  intros [H1 H2]. unfold in_language, start. split; intros (k & y & Hk & Hy).
  - destruct (H1 _ (mkState k (drop k input) ∅) _ ltac:(done) Hy) as (y' & Hy' & _).
    by exists k, y'.
  - destruct (H2 _ (mkState k (drop k input) ∅) _ ltac:(done) Hy) as (y' & Hy' & _).
    by exists k, y'.
Qed.

(** ** The two patterns accept the same inputs *)

Ltac group_map_cases :=
  let j := fresh "j" in let j' := fresh "j'" in let Hj := fresh "Hj" in
  intros j j' Hj; unfold flip, group_map in Hj;
  destruct Hj as [[-> ->]|[[-> ->]|[-> ->]]];
  simpl; rewrite ?elem_of_cons, ?elem_of_nil; lia.

Ltac fsim_step :=
  lazymatch goal with
  | |- fsim _ Empty Empty => apply fsim_Empty
  | |- fsim _ (Char _) (Char _) => apply fsim_Char
  | |- fsim _ (Class _) (Class _) => apply fsim_Class
  | |- fsim _ Start Start => apply fsim_Start
  | |- fsim _ End End => apply fsim_End
  | |- fsim _ (BackRef _) (BackRef _) =>
      apply fsim_BackRef; unfold flip, group_map; lia
  | |- fsim _ (Quant _ _ _) (Quant _ _ _) =>
      apply fsim_Quant; [group_map_cases|]
  | |- fsim _ (Disj _ _) (Disj _ _) => apply fsim_Disj
  | |- fsim _ (Group _ _) (Group _ _) =>
      first [ apply fsim_Group; [group_map_cases|]
            | apply fsim_Group_l; [group_map_cases|]
            | apply fsim_Group_r; [group_map_cases|] ]
  | |- fsim _ (Group _ _) _ => apply fsim_Group_l; [group_map_cases|]
  | |- fsim _ _ (Group _ _) => apply fsim_Group_r; [group_map_cases|]
  | |- fsim _ (Seq _ _) (Seq _ _) => apply fsim_Seq
  end.

Lemma minimalist_sim_expanded :
  sim group_map (body regex_iso8601_datetime_minimalist)
    (body regex_iso8601_datetime).
Proof.
  split; simpl.
  - apply fsim_Seq; [|fsim_step].
    apply fsim_Seq; [|repeat fsim_step].
    apply fsim_Seq_assoc_l, fsim_Seq; [|repeat fsim_step].
    apply fsim_Seq; [|fsim_step].
    apply fsim_Seq_assoc_l, fsim_Seq; [fsim_step | repeat fsim_step].
  - apply fsim_Seq; [|fsim_step].
    apply fsim_Seq; [|repeat fsim_step].
    apply fsim_Seq_assoc_r, fsim_Seq; [|repeat fsim_step].
    apply fsim_Seq; [|fsim_step].
    apply fsim_Seq_assoc_r, fsim_Seq; [fsim_step | repeat fsim_step].
Qed.

Lemma test_minimalist_expanded input :
  test regex_iso8601_datetime_minimalist input
  = test regex_iso8601_datetime input.
Proof.
  apply eq_true_iff_eq. rewrite !test_in_language.
  apply (sim_in_language group_map), minimalist_sim_expanded.
Qed.

(** ** Runs and matches *)

Section RunMatches.

Lemma is_prefix_app s t : is_prefix s (s ++ t) = true.
Proof. induction s as [|a s IH]; simpl; [done|]. by rewrite N.eqb_refl. Qed.

Lemma is_prefix_take s t : is_prefix s t = true → take (length s) t = s.
Proof.
  revert t. induction s as [|a s IH]; intros [|b t]; simpl; try done.
  intros [->%N.eqb_eq Hp]%andb_true_iff. f_equal. by apply IH.
Qed.

Lemma consumed_eq x y s :
  rest x = s ++ rest y → endIndex y = endIndex x + length s →
  consumed x y = s.
Proof.
  intros Hr He. unfold consumed. rewrite Hr, He.
  replace (endIndex x + length s - endIndex x) with (length s) by lia.
  by rewrite take_app_length.
Qed.

Lemma consumed_trans x y z :
  rest x = consumed x y ++ rest y →
  endIndex y = endIndex x + length (consumed x y) →
  rest y = consumed y z ++ rest z →
  endIndex z = endIndex y + length (consumed y z) →
  consumed x z = consumed x y ++ consumed y z.
Proof.
  intros Hxy Exy Hyz Eyz. apply consumed_eq.
  - by rewrite <-(assoc_L (++)), <-Hyz.
  - rewrite length_app. lia.
Qed.

Lemma Matches_Run r x y :
  anchor_free r = true → Matches r x y →
  Run r (captures x) (consumed x y) (captures y).
Proof.
  intros Hr Hm. revert Hr.
  induction Hm as [x|ch x tl Hr|rs ch x tl Hr Hok|r1 r2 x y z H1 IH1 H2 IH2
    |r1 r2 x y _ IH|r1 r2 x y _ IH|i r x y _ IH|i x Hcap|i x s Hcap Hp
    |x Hx|x Hr|r min x|r max x|r min max x y z H1 IH1 Hne H2 IH2];
    simpl; intros Haf; try done;
    try (rewrite (consumed_eq x x []) by (simpl; done || lia); by constructor).
  - rewrite (consumed_eq _ _ [ch]); [constructor| |done].
    simpl. rewrite Hr. simpl. by rewrite drop_0.
  - rewrite (consumed_eq _ _ [ch]); [by constructor| |done].
    simpl. rewrite Hr. simpl. by rewrite drop_0.
  - apply andb_true_iff in Haf as [Ha1 Ha2].
    apply Matches_consumed in H1 as Hc1. apply Matches_consumed in H2 as Hc2.
    rewrite (consumed_trans x y z) by tauto.
    econstructor; [by apply IH1 | by apply IH2].
  - apply andb_true_iff in Haf as [Ha1 Ha2]. by apply R_DisjL, IH.
  - apply andb_true_iff in Haf as [Ha1 Ha2]. by apply R_DisjR, IH.
  - replace (consumed x (set_capture i (consumed x y) y)) with (consumed x y) by done.
    by apply R_Group, IH.
  - rewrite (consumed_eq _ _ s); [by constructor| |done].
    simpl. rewrite <-(take_drop (length s) (rest x)) at 1.
    by rewrite is_prefix_take.
  - apply Matches_consumed in H1 as Hc1. apply Matches_consumed in H2 as Hc2.
    simpl in Hc1. replace (consumed x z) with
      (consumed (clear_captures (groups_in r) x) y ++ consumed y z).
    + eapply R_QuantStep; [by apply IH1 | | by apply IH2].
      intros Hmin Hnil. apply (Hne Hmin). destruct Hc1 as [_ ->].
      rewrite Hnil. simpl. lia.
    + symmetry. apply (consumed_trans (clear_captures (groups_in r) x) y z); tauto.
Qed.

Lemma Run_Matches r c0 s c1 :
  Run r c0 s c1 →
  ∀ e t, Matches r (mkState e (s ++ t) c0) (mkState (e + length s) t c1).
Proof.
  induction 1 as [c|ch c|rs ch c Hok|r1 r2 c0 s1 c1 s2 c2 _ IH1 _ IH2
    |r1 r2 c0 s c1 _ IH|r1 r2 c0 s c1 _ IH|i r c0 s c1 _ IH|i c Hc|i c s Hc
    |r min c|r max c|r min max c0 s1 c1 s2 c2 _ IH1 Hne _ IH2];
    intros e t; simpl; rewrite ?Nat.add_0_r.
  - constructor.
  - replace (e + 1) with (endIndex (mkState e (ch :: t) c) + 1) by done.
    by apply (M_Char ch (mkState e (ch :: t) c) t).
  - by apply (M_Class rs ch (mkState e (ch :: t) c) t).
  - rewrite length_app, <-(assoc_L (++)), Nat.add_assoc.
    econstructor; [apply IH1 | apply IH2].
  - apply M_DisjL, IH.
  - apply M_DisjR, IH.
  - pose proof (M_Group i r _ _ (IH e t)) as Hg.
    rewrite (consumed_eq _ _ s) in Hg by (simpl; done). apply Hg.
  - by apply M_BackRefUndef.
  - pose proof (M_BackRef i (mkState e (s ++ t) c) s Hc (is_prefix_app s t)) as Hb.
    unfold advance in Hb. simpl in Hb. by rewrite drop_app_length in Hb.
  - constructor.
  - constructor.
  - rewrite length_app, <-(assoc_L (++)), Nat.add_assoc.
    eapply M_QuantStep; [apply IH1 | | apply IH2].
    simpl. intros Hmin. specialize (Hne Hmin). destruct s1; [done | simpl; lia].
Qed.

End RunMatches.

Section RunInversion.

Lemma Run_frame r c0 s c1 i :
  Run r c0 s c1 → i ∉ groups_in r → c1 !! i = c0 !! i.
Proof.
  intros Hrun Hi.
  apply (Matches_frame r _ _ i (Run_Matches _ _ _ _ Hrun 0 []) Hi).
Qed.

Lemma Run_Quant_Class_inv rs min max c0 s c1 :
  Run (Quant (Class rs) min max) c0 s c1 →
  c1 = c0 ∧ Forall (λ ch, in_class rs ch = true) s ∧
  length s ≤ max ∧ (min ≤ max → min ≤ length s).
Proof.
  revert min c0 s. induction max as [|max IH]; intros min c0 s Hrun.
  - inversion Hrun; subst; simpl; split_and!; auto with lia.
  - inversion Hrun as [| | | | | | | | | |? ? ?
      |? ? ? ? s1 c' s2 ? H1 Hne H2]; subst.
    + simpl; split_and!; auto with lia.
    + inversion H1; subst. apply IH in H2 as (-> & Hall & Hmax & Hmin).
      simpl. split_and!; [done | by constructor | lia | lia].
Qed.

Lemma Run_Quant_0_inv r min c0 s c1 :
  Run (Quant r min 0) c0 s c1 → s = [] ∧ c1 = c0.
Proof. by inversion 1. Qed.

(** [r?] *)
Lemma Run_opt_inv r c0 s c1 :
  Run (Quant r 0 1) c0 s c1 →
  s = [] ∧ c1 = c0 ∨
  s ≠ [] ∧ Run r (foldr delete c0 (groups_in r)) s c1.
Proof.
  inversion 1 as [| | | | | | | | | |
    |? ? ? ? s1 c' s2 ? H1 Hne H2]; subst; [by left|].
  apply Run_Quant_0_inv in H2 as [-> ->]. rewrite (right_id_L [] (++)).
  right. auto.
Qed.

Lemma Run_opt_Char_inv ch c0 s c1 :
  Run (Quant (Char ch) 0 1) c0 s c1 → c1 = c0 ∧ (s = [] ∨ s = [ch]).
Proof.
  intros [[-> ->]|[_ Hrun]]%Run_opt_inv; [auto|].
  inversion Hrun; subst. auto.
Qed.

End RunInversion.

(** Inversion of a run along the syntax of a concrete pattern. *)
Ltac run_inv :=
  repeat match goal with
  | H : Run (Seq _ _) _ _ _ |- _ => inversion H; subst; clear H
  | H : Run (Disj _ _) _ _ _ |- _ => inversion H; subst; clear H
  | H : Run (Group _ _) _ _ _ |- _ => inversion H; subst; clear H
  | H : Run (Char _) _ _ _ |- _ => inversion H; subst; clear H
  | H : Run (Class _) _ _ _ |- _ => inversion H; subst; clear H
  | H : Run (Quant (Class _) _ _) _ _ _ |- _ =>
      apply Run_Quant_Class_inv in H as (-> & ? & ? & ?)
  | H : Run (Quant (Char _) 0 1) _ _ _ |- _ =>
      apply Run_opt_Char_inv in H as (-> & [-> | ->])
  | H : Run (Quant _ 0 1) _ _ _ |- _ =>
      apply Run_opt_inv in H as [[-> ->] | [? H]]; cbn [groups_in app] in H
  | H : Run (BackRef _) _ _ _ |- _ =>
      inversion H; subst; clear H; simplify_map_eq
  end.

(** ** The parts of the expanded pattern *)

Lemma regex_iso8601_datetime_terms :
  body regex_iso8601_datetime =
  Seq (Seq (Seq (Seq (Seq Start date_group) (Char (code "T"))) time_group)
         (Quant tzinfo_group 0 1)) End.
Proof. reflexivity. Qed.

Ltac shape_side :=
  solve [ assumption | by left | by right | split; [lia | assumption] ].

Lemma date_group_inv c0 d c1 : Run date_group c0 d c1 → date_shape c0 d c1.
Proof.
  unfold date_group. intros Hrun. run_inv.
  all: simpl in *; rewrite ?(right_id_L [] (++)), <-?(assoc_L (++)).
  all: match goal with
       | |- date_shape _ _ (<[1:=_]> (<[5:=?da]> (<[4:=?mo]> (<[3:=?h]> (<[2:=?yr]> _))))) =>
           apply (Calendar c0 yr h mo da); shape_side
       | |- date_shape _ _ (<[1:=_]> (<[8:=[?wd]]> (<[7:=?wk]> (<[6:=?h]> (<[2:=?yr]> _))))) =>
           apply (Week c0 yr h wk wd); shape_side
       | |- date_shape _ _ (<[1:=_]> (<[9:=?od]> (<[2:=?yr]> _))) =>
           first [ apply (Ordinal c0 yr [] od); shape_side
                 | apply (Ordinal c0 yr [code "-"] od); shape_side ]
       end.
Qed.

Lemma time_group_inv c0 t c1 : Run time_group c0 t c1 → time_shape c0 t c1.
Proof.
  unfold time_group. intros Hrun. run_inv.
  all: simpl in *; rewrite ?(right_id_L [] (++)), <-?(assoc_L (++)).
  all: match goal with
       | |- time_shape _ _ (<[10:=_]> (<[15:=?us]> (delete 15 (<[14:=?se]>
              (delete 14 (delete 15 (<[13:=?mi]> (<[12:=?c]> (delete 12
                (delete 13 (delete 14 (delete 15 (<[11:=?hr]> _))))))))))))) =>
           apply (HourMinuteSecondFraction c0 hr c mi se us);
           first [shape_side | lia]
       | |- time_shape _ _ (<[10:=_]> (<[14:=?se]>
              (delete 14 (delete 15 (<[13:=?mi]> (<[12:=?c]> (delete 12
                (delete 13 (delete 14 (delete 15 (<[11:=?hr]> _))))))))))) =>
           apply (HourMinuteSecond c0 hr c mi se); shape_side
       | |- time_shape _ _ (<[10:=_]> (<[13:=?mi]> (<[12:=?c]> (delete 12
                (delete 13 (delete 14 (delete 15 (<[11:=?hr]> _)))))))) =>
           apply (HourMinute c0 hr c mi); shape_side
       | |- time_shape _ _ (<[10:=_]> (<[11:=?hr]> _)) =>
           apply (Hour c0 hr); shape_side
       end.
Qed.

Lemma in_sign_class ch :
  in_class [(code "+", code "+"); (code "-", code "-"); (U2212, U2212)] ch = true →
  is_sign ch.
Proof.
  unfold in_class, is_sign, code, U2212. simpl.
  rewrite !orb_true_iff, !andb_true_iff, !N.leb_le. lia.
Qed.

Lemma in_sign_class_intro ch :
  is_sign ch →
  in_class [(code "+", code "+"); (code "-", code "-"); (U2212, U2212)] ch = true.
Proof. by intros [-> | [-> | ->]]. Qed.

Lemma tzinfo_group_inv c0 z c1 :
  Run (Quant tzinfo_group 0 1) c0 z c1 → tzinfo_shape c0 z c1.
Proof.
  unfold tzinfo_group. intros Hrun. run_inv.
  all: simpl in *; rewrite ?(right_id_L [] (++)), <-?(assoc_L (++)).
  all: repeat match goal with
       | H : in_class [_; _; _] _ = true |- _ => apply in_sign_class in H
       end.
  all: match goal with
       | |- tzinfo_shape _ [] _ => apply NoTzinfo
       | |- tzinfo_shape _ [_] _ => apply Zulu
       | |- tzinfo_shape _ _ (<[16:=_]> (<[18:=?hh]> (<[17:=[?sg]]> _))) =>
           apply (OffsetHour c0 sg hh); shape_side
       | |- tzinfo_shape _ _ (<[16:=_]> (<[19:=?mm]> (delete 19
              (delete 20 (<[18:=?hh]> (<[17:=[?sg]]> _)))))) =>
           first [ apply (OffsetHourMinute c0 sg hh [] mm); shape_side
                 | apply (OffsetHourMinute c0 sg hh [code ":"] mm); shape_side ]
       | |- tzinfo_shape _ _ (<[16:=_]> (<[20:=?ss]> (delete 20 (<[19:=?mm]>
              (delete 19 (delete 20 (<[18:=?hh]> (<[17:=[?sg]]> _)))))))) =>
           first [ apply (OffsetHourMinuteSecond c0 sg hh [] mm [] ss); shape_side
                 | apply (OffsetHourMinuteSecond c0 sg hh [] mm [code ":"] ss); shape_side
                 | apply (OffsetHourMinuteSecond c0 sg hh [code ":"] mm [] ss); shape_side
                 | apply (OffsetHourMinuteSecond c0 sg hh [code ":"] mm [code ":"] ss); shape_side ]
       end.
Qed.

(** ** Successful matches of the expanded pattern *)

Section Expanded.

(** A run of the whole pattern starts at index 0, ends at the end of the
    input, and splits the input into the three super-groups around the
    letter [code "T"]. *)
Lemma expanded_run_inv x y :
  Matches (body regex_iso8601_datetime) x y →
  endIndex x = 0 ∧ rest y = [] ∧ endIndex y = length (rest x) ∧
  ∃ d t z cd ct,
    rest x = d ++ [code "T"] ++ t ++ z ∧
    Run date_group (captures x) d cd ∧ Run time_group cd t ct ∧
    Run (Quant tzinfo_group 0 1) ct z (captures y).
Proof.
  rewrite regex_iso8601_datetime_terms. intros H.
  inversion H as [| | |? ? ? y4 ? H4 Hend| | | | | | | | | |]; subst; clear H.
  inversion H4 as [| | |? ? ? y3 ? H3 Htz| | | | | | | | | |]; subst; clear H4.
  inversion H3 as [| | |? ? ? y2 ? H2 Htime| | | | | | | | | |]; subst; clear H3.
  inversion H2 as [| | |? ? ? y1 ? H1 HT| | | | | | | | | |]; subst; clear H2.
  inversion H1 as [| | |? ? ? y0 ? H0 Hdate| | | | | | | | | |]; subst; clear H1.
  inversion H0 as [| | | | | | | | |? Hx0| | | |]; subst; clear H0.
  inversion Hend as [| | | | | | | | | |? Hy| | |]; subst; clear Hend.
  inversion HT as [|? ? tl HrT| | | | | | | | | | | |]; subst; clear HT.
  destruct (Matches_consumed _ _ _ Hdate) as [Hd Hde].
  destruct (Matches_consumed _ _ _ Htime) as [Ht Hte].
  destruct (Matches_consumed _ _ _ Htz) as [Hz Hze].
  apply Matches_Run in Hdate; [|done]. apply Matches_Run in Htime; [|done].
  apply Matches_Run in Htz; [|done].
  simpl in *. rewrite HrT in Ht. simpl in Ht. rewrite drop_0 in Ht.
  rewrite Hy, (right_id_L [] (++)) in Hz.
  assert (rest y0 = consumed y0 y1 ++ [code "T"] ++ consumed (advance 1 y1) y3 ++ consumed y3 y)
    as Hs by (rewrite Hd at 1; rewrite HrT, Ht, Hz at 1; done).
  split_and!; [done | done | |].
  - rewrite Hs, !length_app. simpl. lia.
  - by exists (consumed y0 y1), (consumed (advance 1 y1) y3), (consumed y3 y),
      (captures y1), (captures y3).
Qed.

Lemma expanded_run_intro d t z cd ct cz :
  Run date_group ∅ d cd → Run time_group cd t ct →
  Run (Quant tzinfo_group 0 1) ct z cz →
  in_language (body regex_iso8601_datetime) (d ++ [code "T"] ++ t ++ z).
Proof.
  intros Hd Ht Hz.
  cut (in_language (body regex_iso8601_datetime) (d ++ [code "T"] ++ t ++ z ++ [])).
  { by rewrite (right_id_L [] (++)). }
  exists 0. eexists. split; [lia|].
  rewrite regex_iso8601_datetime_terms. unfold start. rewrite drop_0.
  eapply M_Seq; [eapply M_Seq; [eapply M_Seq; [eapply M_Seq;
    [eapply M_Seq; [by apply M_Start|]|]|]|]|].
  - apply (Run_Matches _ _ _ _ Hd).
  - by eapply M_Char.
  - exact (Run_Matches _ _ _ _ Ht (length d + 1) (z ++ [])).
  - apply (Run_Matches _ _ _ _ Hz).
  - by apply M_End.
Qed.

(** The result of a successful [exec]. *)
Lemma exec_expanded_inv input m :
  exec regex_iso8601_datetime input = Some m →
  index m = 0 ∧ whole m = input ∧
  group_names_of m = names regex_iso8601_datetime ∧
  ∃ d t z cd ct,
    input = d ++ [code "T"] ++ t ++ z ∧
    Run date_group ∅ d cd ∧ Run time_group cd t ct ∧
    Run (Quant tzinfo_group 0 1) ct z (groups_by_index m).
Proof.
  unfold exec. destruct (exec_from _ 0 input) as [[j y]|] eqn:He; [|done].
  simpl. intros [= <-]. simpl.
  apply exec_from_sound in He as (k & -> & Hk & Hy).
  apply expanded_run_inv in Hy as (Hx & Hr & He & Hs). simpl in *. subst k.
  rewrite drop_0 in *. rewrite He, Nat.sub_0_r, firstn_all. done.
Qed.

Lemma group_lookup name i m :
  group_names_of m = names regex_iso8601_datetime →
  name_index (names regex_iso8601_datetime) name 1 = Some i →
  group name m = groups_by_index m !! i.
Proof. unfold group. by intros -> ->. Qed.

End Expanded.

(** *** From runs to the grammar *)

Lemma date_shape_grammar c0 d c1 : date_shape c0 d c1 → Grammar.date d.
Proof. destruct 1; by constructor. Qed.

Lemma time_shape_grammar c0 t c1 : time_shape c0 t c1 → Grammar.time t.
Proof. destruct 1; by constructor. Qed.

Lemma tzinfo_shape_grammar c0 z c1 :
  tzinfo_shape c0 z c1 → z = [] ∨ Grammar.tzinfo z.
Proof. destruct 1; [by left | right; by constructor..]. Qed.

(** *** From the grammar to runs *)

Section RunIntro.

Lemma Run_Quant_Class_intro rs min max c s :
  Forall (λ ch, in_class rs ch = true) s → min ≤ length s → length s ≤ max →
  Run (Quant (Class rs) min max) c s c.
Proof.
  intros Hall. revert min max.
  induction Hall as [|a s Ha Hall IH]; intros min max Hmin Hmax; simpl in *.
  - assert (min = 0) as -> by lia. constructor.
  - destruct max as [|max]; [lia|].
    apply (R_QuantStep _ _ _ c [a] c s c); [by constructor | done |].
    apply IH; lia.
Qed.

Lemma Run_opt_take r c s c1 :
  s ≠ [] → Run r (foldr delete c (groups_in r)) s c1 →
  Run (Quant r 0 1) c s c1.
Proof.
  intros Hs Hrun. rewrite <-(right_id_L [] (++) s).
  eapply R_QuantStep; [done | done | constructor].
Qed.

Lemma Run_opt_Char_intro a c s :
  separator a s → Run (Quant (Char (code a)) 0 1) c s c.
Proof.
  intros [-> | ->]; [constructor|]. apply Run_opt_take; [done | constructor].
Qed.

Lemma Run_str r c s s' c1 : s = s' → Run r c s c1 → Run r c s' c1.
Proof. by intros ->. Qed.

Lemma digit_string_nonempty n s : digit_string (S n) s → s ≠ [].
Proof. intros [Hlen _] ->. done. Qed.

End RunIntro.

(** Construction of a run along the syntax of a concrete pattern, for a
    string that is split the way the pattern is bracketed. *)
Ltac run_lookup :=
  cbn [foldr];
  repeat first [ rewrite lookup_insert_eq | rewrite lookup_insert_ne by done
               | rewrite lookup_delete_ne by done ];
  reflexivity.

Ltac run_step :=
  lazymatch goal with
  | |- Run (Seq _ _) _ (_ ++ _) _ => eapply R_Seq
  | |- Run (Seq _ _) _ (?a :: ?s) _ => change (a :: s) with ([a] ++ s); eapply R_Seq
  | |- Run (Group _ _) _ _ _ => eapply R_Group
  | |- Run (Char _) _ [_] _ => apply R_Char
  | |- Run (Class _) _ [_] _ =>
      apply R_Class; first [assumption | by apply in_sign_class_intro]
  | |- Run (Quant (Class _) _ _) _ ?s _ =>
      apply Run_Quant_Class_intro;
      match goal with
      | H : digit_string _ s |- _ => destruct H as [? ?]; first [assumption | lia]
      | _ => first [assumption | lia]
      end
  | |- Run (Quant (Char _) 0 1) _ _ _ =>
      first [ apply (Run_opt_Char_intro "-"); assumption
            | apply (Run_opt_Char_intro ":"); assumption ]
  | |- Run (BackRef _) _ _ _ => apply R_BackRef; run_lookup
  end.

Lemma date_group_intro c0 d : Grammar.date d → ∃ c1, Run date_group c0 d c1.
Proof.
  unfold date_group.
  destruct 1 as [yr h mo da Hyr Hh Hmo Hda|yr h wk wd Hyr Hh Hwk Hwd
                |yr h od Hyr Hh Hod]; eexists.
  - apply (Run_str _ _ (yr ++ (((h ++ mo) ++ h) ++ da)));
      [by rewrite <-!(assoc_L (++))|].
    eapply R_Group, R_Seq; [repeat run_step|].
    apply R_DisjL. repeat run_step.
  - apply (Run_str _ _ (yr ++ ((((h ++ [code "W"]) ++ wk) ++ h) ++ [wd])));
      [by rewrite <-!(assoc_L (++))|].
    eapply R_Group, R_Seq; [repeat run_step|].
    apply R_DisjR, R_DisjL. repeat run_step.
  - eapply R_Group, R_Seq; [repeat run_step|].
    apply R_DisjR, R_DisjR. repeat run_step.
Qed.

Lemma time_group_intro c0 t : Grammar.time t → ∃ c1, Run time_group c0 t c1.
Proof.
  unfold time_group.
  destruct 1 as [hr Hhr|hr c mi Hhr Hc Hmi|hr c mi se Hhr Hc Hmi Hse
                |hr c mi se us Hhr Hc Hmi Hse Hlen Hus]; eexists.
  - apply (Run_str _ _ (hr ++ [])); [by rewrite (right_id_L [] (++))|].
    eapply R_Group, R_Seq; [repeat run_step|]. apply R_QuantStop.
  - apply (Run_str _ _ (hr ++ ((c ++ mi) ++ [])));
      [by rewrite (right_id_L [] (++))|].
    eapply R_Group, R_Seq; [repeat run_step|].
    apply Run_opt_take; [|cbn [groups_in app]].
    { apply digit_string_nonempty in Hmi. by destruct c, mi. }
    eapply R_Seq; [repeat run_step|]. apply R_QuantStop.
  - apply (Run_str _ _ (hr ++ ((c ++ mi) ++ ((c ++ se) ++ []))));
      [by rewrite (right_id_L [] (++)), <-!(assoc_L (++))|].
    eapply R_Group, R_Seq; [repeat run_step|].
    apply Run_opt_take; [|cbn [groups_in app]].
    { apply digit_string_nonempty in Hmi. by destruct c, mi. }
    eapply R_Seq; [repeat run_step|].
    apply Run_opt_take; [|cbn [groups_in app]].
    { apply digit_string_nonempty in Hse. by destruct c, se. }
    eapply R_Seq; [repeat run_step|]. apply R_QuantStop.
  - apply (Run_str _ _ (hr ++ ((c ++ mi) ++ ((c ++ se) ++ ([code "."] ++ us)))));
      [by rewrite <-!(assoc_L (++))|].
    eapply R_Group, R_Seq; [repeat run_step|].
    apply Run_opt_take; [|cbn [groups_in app]].
    { apply digit_string_nonempty in Hmi. by destruct c, mi. }
    eapply R_Seq; [repeat run_step|].
    apply Run_opt_take; [|cbn [groups_in app]].
    { apply digit_string_nonempty in Hse. by destruct c, se. }
    eapply R_Seq; [repeat run_step|].
    apply Run_opt_take; [done|cbn [groups_in app]]. repeat run_step.
Qed.

Lemma tzinfo_group_intro c0 z :
  z = [] ∨ Grammar.tzinfo z → ∃ c1, Run (Quant tzinfo_group 0 1) c0 z c1.
Proof.
  unfold tzinfo_group.
  intros [->|[|sg hh Hsg Hhh|sg hh c1 mm Hsg Hhh Hc1 Hmm
             |sg hh c1 mm c2 ss Hsg Hhh Hc1 Hmm Hc2 Hss]]; eexists.
  - apply R_QuantStop.
  - apply Run_opt_take; [done|]. apply R_Group, R_DisjL, R_Char.
  - apply Run_opt_take; [done|]. eapply R_Group. apply R_DisjR.
    apply (Run_str _ _ (([sg] ++ hh) ++ [])); [by rewrite (right_id_L [] (++))|].
    eapply R_Seq; [repeat run_step|]. apply R_QuantStop.
  - apply Run_opt_take; [done|]. eapply R_Group. apply R_DisjR.
    apply (Run_str _ _ (([sg] ++ hh) ++ ((c1 ++ mm) ++ [])));
      [by rewrite (right_id_L [] (++)), <-!(assoc_L (++))|].
    eapply R_Seq; [repeat run_step|].
    apply Run_opt_take; [|cbn [groups_in app]].
    { apply digit_string_nonempty in Hmm. by destruct c1, mm. }
    eapply R_Seq; [repeat run_step|]. apply R_QuantStop.
  - apply Run_opt_take; [done|]. eapply R_Group. apply R_DisjR.
    apply (Run_str _ _ (([sg] ++ hh) ++ ((c1 ++ mm) ++ (c2 ++ ss))));
      [by rewrite <-!(assoc_L (++))|].
    eapply R_Seq; [repeat run_step|].
    apply Run_opt_take; [|cbn [groups_in app]].
    { apply digit_string_nonempty in Hmm. by destruct c1, mm. }
    eapply R_Seq; [repeat run_step|].
    apply Run_opt_take; [|cbn [groups_in app]; repeat run_step].
    apply digit_string_nonempty in Hss. by destruct c2, ss.
Qed.

(** The expanded pattern accepts exactly the strings of the grammar. *)
Lemma test_expanded_grammar input :
  test regex_iso8601_datetime input = true ↔ Grammar.datetime input.
Proof.
  rewrite test_in_language. split.
  - intros (k & y & Hk & Hy).
    apply expanded_run_inv in Hy as (Hx & _ & _ & d & t & z & cd & ct & Hs & Hd & Ht & Hz).
    simpl in *. subst k. rewrite drop_0 in Hs. exists d, t, z.
    apply date_group_inv, date_shape_grammar in Hd.
    apply time_group_inv, time_shape_grammar in Ht.
    apply tzinfo_group_inv, tzinfo_shape_grammar in Hz. done.
  - intros (d & t & z & -> & Hd & Ht & Hz).
    destruct (date_group_intro ∅ d Hd) as [cd Hcd].
    destruct (time_group_intro cd t Ht) as [ct Hct].
    destruct (tzinfo_group_intro ct z Hz) as [cz Hcz].
    by eapply expanded_run_intro.
Qed.

(** ** The groups of a successful match *)

Lemma not_elem_of_range (i : nat) (l : list nat) :
  Forall (λ j, i ≠ j) l → i ∉ l.
Proof. intros Hall Hin. by apply (proj1 (Forall_forall _ _) Hall i) in Hin. Qed.

Lemma exec_expanded_decomposition input m :
  exec regex_iso8601_datetime input = Some m →
  ∃ d t z cd ct, decomposition input m d t z cd ct.
Proof.
  intros (Hi & Hw & Hn & d & t & z & cd & ct & Hs & Hd & Ht & Hz)%exec_expanded_inv.
  exists d, t, z, cd, ct. split; try done.
  - by apply date_group_inv.
  - by apply time_group_inv.
  - by apply tzinfo_group_inv.
  - intros i Hi9. rewrite (Run_frame _ _ _ _ i Hz), (Run_frame _ _ _ _ i Ht); [done|..];
      apply not_elem_of_range; repeat constructor; lia.
  - intros i Hi15. rewrite (Run_frame _ _ _ _ i Hz); [done|].
    apply not_elem_of_range; repeat constructor; lia.
Qed.

(** Rewrites [group name m] into the lookup of the group's index. *)
Ltac group_index Hn :=
  rewrite ?(group_lookup "date" 1 _ Hn eq_refl),
    ?(group_lookup "year" 2 _ Hn eq_refl),
    ?(group_lookup "ymd_hyphen" 3 _ Hn eq_refl),
    ?(group_lookup "month" 4 _ Hn eq_refl),
    ?(group_lookup "day" 5 _ Hn eq_refl),
    ?(group_lookup "ywd_hyphen" 6 _ Hn eq_refl),
    ?(group_lookup "week" 7 _ Hn eq_refl),
    ?(group_lookup "weekday" 8 _ Hn eq_refl),
    ?(group_lookup "ordinalday" 9 _ Hn eq_refl),
    ?(group_lookup "time" 10 _ Hn eq_refl),
    ?(group_lookup "hour" 11 _ Hn eq_refl),
    ?(group_lookup "hms_colon" 12 _ Hn eq_refl),
    ?(group_lookup "minute" 13 _ Hn eq_refl),
    ?(group_lookup "second" 14 _ Hn eq_refl),
    ?(group_lookup "microsecond" 15 _ Hn eq_refl),
    ?(group_lookup "tzinfo" 16 _ Hn eq_refl),
    ?(group_lookup "tzsign" 17 _ Hn eq_refl),
    ?(group_lookup "tzhour" 18 _ Hn eq_refl),
    ?(group_lookup "tzminute" 19 _ Hn eq_refl),
    ?(group_lookup "tzsecond" 20 _ Hn eq_refl).

(** Evaluates lookups in a map built from inserts and deletes. *)
Ltac caps_lookup :=
  cbn [foldr];
  repeat first [ rewrite lookup_insert_eq | rewrite lookup_insert_ne by done
               | rewrite lookup_delete_eq | rewrite lookup_delete_ne by done
               | rewrite lookup_empty ].

(** The groups of the date part. *)
Lemma expanded_date_groups input m :
  exec regex_iso8601_datetime input = Some m →
  ∃ d yr, group "date" m = Some d ∧ group "year" m = Some yr ∧
          digit_string 4 yr ∧
    ((∃ h mo da,
        separator "-" h ∧ digit_string 2 mo ∧ digit_string 2 da ∧
        d = yr ++ h ++ mo ++ h ++ da ∧
        group "ymd_hyphen" m = Some h ∧ group "month" m = Some mo ∧
        group "day" m = Some da ∧
        group "ywd_hyphen" m = None ∧ group "week" m = None ∧
        group "weekday" m = None ∧ group "ordinalday" m = None) ∨
     (∃ h wk wd,
        separator "-" h ∧ digit_string 2 wk ∧
        in_class [(code "1", code "7")] wd = true ∧
        d = yr ++ h ++ [code "W"] ++ wk ++ h ++ [wd] ∧
        group "ywd_hyphen" m = Some h ∧ group "week" m = Some wk ∧
        group "weekday" m = Some [wd] ∧
        group "ymd_hyphen" m = None ∧ group "month" m = None ∧
        group "day" m = None ∧ group "ordinalday" m = None) ∨
     (∃ h od,
        separator "-" h ∧ digit_string 3 od ∧
        d = yr ++ h ++ od ∧
        group "ordinalday" m = Some od ∧
        group "ymd_hyphen" m = None ∧ group "month" m = None ∧
        group "day" m = None ∧ group "ywd_hyphen" m = None ∧
        group "week" m = None ∧ group "weekday" m = None)).
Proof.
  intros (d & t & z & cd & ct & [_ _ Hn _ Hd _ _ Hf _])%exec_expanded_decomposition.
  group_index Hn. rewrite !Hf by lia. clear Hf.
  destruct Hd as [yr h mo da Hyr Hh Hmo Hda d|yr h wk wd Hyr Hh Hwk Hwd d
                 |yr h od Hyr Hh Hod d]; exists d, yr; caps_lookup.
  - split_and!; [done..|]. left. exists h, mo, da. by split_and!.
  - split_and!; [done..|]. right. left. exists h, wk, wd. by split_and!.
  - split_and!; [done..|]. right. right. exists h, od. by split_and!.
Qed.

(** Groups to the right of a part are still undefined after it. *)
Lemma date_shape_beyond d cd i : date_shape ∅ d cd → 10 ≤ i → cd !! i = None.
Proof.
  intros Hd Hi. destruct Hd; rewrite ?lookup_insert_ne by lia; apply lookup_empty.
Qed.

Lemma time_shape_beyond cd t ct i :
  time_shape cd t ct → cd !! i = None → 16 ≤ i → ct !! i = None.
Proof.
  intros Ht Hcd Hi. destruct Ht; cbn [foldr];
    repeat first [ rewrite lookup_insert_ne by lia
                 | rewrite lookup_delete_ne by lia ]; done.
Qed.

(** The groups of the time part. *)
Lemma expanded_time_groups input m :
  exec regex_iso8601_datetime input = Some m →
  ∃ t hr, group "time" m = Some t ∧ group "hour" m = Some hr ∧
          digit_string 2 hr ∧
    ((t = hr ∧ group "hms_colon" m = None ∧ group "minute" m = None ∧
      group "second" m = None ∧ group "microsecond" m = None) ∨
     (∃ c mi,
        separator ":" c ∧ digit_string 2 mi ∧ t = hr ++ c ++ mi ∧
        group "hms_colon" m = Some c ∧ group "minute" m = Some mi ∧
        group "second" m = None ∧ group "microsecond" m = None) ∨
     (∃ c mi se,
        separator ":" c ∧ digit_string 2 mi ∧ digit_string 2 se ∧
        t = hr ++ c ++ mi ++ c ++ se ∧
        group "hms_colon" m = Some c ∧ group "minute" m = Some mi ∧
        group "second" m = Some se ∧ group "microsecond" m = None) ∨
     (∃ c mi se us,
        separator ":" c ∧ digit_string 2 mi ∧ digit_string 2 se ∧
        1 ≤ length us ≤ 6 ∧ Forall is_digit us ∧
        t = hr ++ c ++ mi ++ c ++ se ++ [code "."] ++ us ∧
        group "hms_colon" m = Some c ∧ group "minute" m = Some mi ∧
        group "second" m = Some se ∧ group "microsecond" m = Some us)).
Proof.
  intros (d & t & z & cd & ct & [_ _ Hn _ Hd Ht _ _ Hf])%exec_expanded_decomposition.
  group_index Hn. rewrite !Hf by lia. clear Hf.
  pose proof (λ i, date_shape_beyond d cd i Hd) as Hcd.
  destruct Ht as [hr Hhr|hr c mi Hhr Hc Hmi t|hr c mi se Hhr Hc Hmi Hse t
                 |hr c mi se us Hhr Hc Hmi Hse Hlen Hus t];
    [exists hr, hr|exists t, hr..]; caps_lookup.
  - rewrite !Hcd by lia. split_and!; [done..|]. by left.
  - split_and!; [done..|]. right. left. exists c, mi. by split_and!.
  - split_and!; [done..|]. right. right. left. exists c, mi, se. by split_and!.
  - split_and!; [done..|]. right. right. right. exists c, mi, se, us.
    split_and!; first [done | lia].
Qed.

(** The groups of the timezone designator. *)
Lemma expanded_tzinfo_groups input m :
  exec regex_iso8601_datetime input = Some m →
  (group "tzinfo" m = None ∧ group "tzsign" m = None ∧
   group "tzhour" m = None ∧ group "tzminute" m = None ∧
   group "tzsecond" m = None) ∨
  (group "tzinfo" m = Some [code "Z"] ∧ group "tzsign" m = None ∧
   group "tzhour" m = None ∧ group "tzminute" m = None ∧
   group "tzsecond" m = None) ∨
  (∃ sg hh, is_sign sg ∧ digit_string 2 hh ∧
     group "tzsign" m = Some [sg] ∧ group "tzhour" m = Some hh ∧
     ((group "tzinfo" m = Some ([sg] ++ hh) ∧
       group "tzminute" m = None ∧ group "tzsecond" m = None) ∨
      (∃ c1 mm, separator ":" c1 ∧ digit_string 2 mm ∧
         group "tzinfo" m = Some ([sg] ++ hh ++ c1 ++ mm) ∧
         group "tzminute" m = Some mm ∧ group "tzsecond" m = None) ∨
      (∃ c1 mm c2 ss, separator ":" c1 ∧ digit_string 2 mm ∧
         separator ":" c2 ∧ digit_string 2 ss ∧
         group "tzinfo" m = Some ([sg] ++ hh ++ c1 ++ mm ++ c2 ++ ss) ∧
         group "tzminute" m = Some mm ∧ group "tzsecond" m = Some ss))).
Proof.
  intros (d & t & z & cd & ct & [_ _ Hn _ Hd Ht Hz _ _])%exec_expanded_decomposition.
  group_index Hn.
  assert (∀ i, 16 ≤ i → ct !! i = None) as Hnone.
  { intros i Hi. eapply time_shape_beyond; [done| |done].
    eapply date_shape_beyond; [done | lia]. }
  destruct Hz as [| |sg hh Hsg Hhh z|sg hh c1 mm Hsg Hhh Hc1 Hmm z
                 |sg hh c1 mm c2 ss Hsg Hhh Hc1 Hmm Hc2 Hss z]; caps_lookup.
  - left. rewrite !Hnone by lia. done.
  - right. left. done.
  - right. right. exists sg, hh. split_and!; [done..|]. by left.
  - right. right. exists sg, hh. split_and!; [done..|].
    right. left. exists c1, mm. by split_and!.
  - right. right. exists sg, hh. split_and!; [done..|].
    right. right. exists c1, mm, c2, ss. by split_and!.
Qed.

(** The three super-groups partition the input. *)
Lemma expanded_super_groups input m :
  exec regex_iso8601_datetime input = Some m →
  ∃ d t z, input = d ++ [code "T"] ++ t ++ z ∧
    Grammar.date d ∧ Grammar.time t ∧ (z = [] ∨ Grammar.tzinfo z) ∧
    group "date" m = Some d ∧ group "time" m = Some t ∧
    group "tzinfo" m = (if decide (z = []) then None else Some z).
Proof.
  intros (d & t & z & cd & ct & [_ _ Hn Hs Hd Ht Hz Hfd Hft])%exec_expanded_decomposition.
  exists d, t, z. group_index Hn. rewrite Hfd, Hft by lia.
  split_and!; [done | by eapply date_shape_grammar | by eapply time_shape_grammar
              | by eapply tzinfo_shape_grammar | | |].
  - destruct Hd; by caps_lookup.
  - destruct Ht; by caps_lookup.
  - assert (ct !! 16 = None) as Hnone.
    { eapply time_shape_beyond; [done| |done].
      eapply date_shape_beyond; [done | lia]. }
    destruct Hz; caps_lookup; by rewrite ?Hnone.
Qed.

(** ** Anchoring *)

Lemma Matches_starts_with_Start r x y :
  Matches r x y → starts_with_Start r = true → endIndex x = 0.
Proof. induction 1; simpl; try done; auto. Qed.

Lemma Matches_ends_with_End r x y :
  Matches r x y → ends_with_End r = true → rest y = [].
Proof.
  destruct 1 as [| | |r1 r2 x y z H1 H2| | | | | | | | | |]; simpl; try done.
  destruct r2; try done. by inversion H2.
Qed.

(** A pattern between [^] and [$] matches the whole input or nothing. *)
Lemma exec_anchored re input m :
  starts_with_Start (body re) = true → ends_with_End (body re) = true →
  exec re input = Some m → index m = 0 ∧ whole m = input.
Proof.
  intros Hs He. unfold exec.
  destruct (exec_from _ 0 input) as [[j y]|] eqn:Hex; [|done].
  simpl. intros [= <-]. simpl.
  apply exec_from_sound in Hex as (k & -> & Hk & Hy).
  pose proof (Matches_starts_with_Start _ _ _ Hy Hs) as H0. simpl in H0. subst k.
  pose proof (Matches_ends_with_End _ _ _ Hy He) as Hr.
  apply Matches_consumes in Hy as (s & Hin & Hend). simpl in *.
  rewrite Hr, (right_id_L [] (++)), drop_0 in Hin. subst s.
  rewrite drop_0, Hend, Nat.sub_0_r, firstn_all. done.
Qed.

(** ** First and last characters of the strings of the grammar *)

Lemma ends_in_app_r P a b : ends_in P b → ends_in P (a ++ b).
Proof. intros (c & Hc & HP). exists c. by rewrite last_app, Hc. Qed.

Lemma ends_in_digits P s :
  s ≠ [] → Forall is_digit s → (∀ c, is_digit c → P c) → ends_in P s.
Proof.
  intros Hs Hall HP. apply last_is_Some in Hs as [c Hc]. exists c. split; [done|].
  apply HP. apply (proj1 (Forall_forall _ _) Hall), last_Some_elem_of, Hc.
Qed.

Lemma ends_in_digit_string P n s :
  digit_string (S n) s → (∀ c, is_digit c → P c) → ends_in P s.
Proof.
  intros Hs HP. apply ends_in_digits; [by eapply digit_string_nonempty | apply Hs | done].
Qed.

Lemma time_ends_in_digit t : Grammar.time t → ends_in digit_or_Z t.
Proof.
  destruct 1 as [hr Hhr|hr c mi Hhr Hc Hmi|hr c mi se Hhr Hc Hmi Hse
                |hr c mi se us Hhr Hc Hmi Hse Hlen Hus];
    repeat apply ends_in_app_r;
    first [ by eapply ends_in_digit_string; [|left]
          | apply ends_in_digits; [by destruct us; simpl in *; [lia|] | done | by left] ].
Qed.

Lemma tzinfo_ends_in_digit_or_Z z : Grammar.tzinfo z → ends_in digit_or_Z z.
Proof.
  destruct 1; [exists (code "Z"); split; [done | by right]|..];
    repeat apply ends_in_app_r; by eapply ends_in_digit_string; [|left].
Qed.

Lemma datetime_ends_in_digit_or_Z s : Grammar.datetime s → ends_in digit_or_Z s.
Proof.
  intros (d & t & z & -> & _ & Ht & [->|Hz]).
  - rewrite (right_id_L [] (++)). by apply ends_in_app_r, ends_in_app_r, time_ends_in_digit.
  - by apply ends_in_app_r, ends_in_app_r, ends_in_app_r, tzinfo_ends_in_digit_or_Z.
Qed.

Lemma datetime_starts_with_digit c s : Grammar.datetime (c :: s) → is_digit c.
Proof.
  intros (d & t & z & Hs & Hd & _).
  assert (∃ c' d', d = c' :: d' ∧ is_digit c') as (c' & d' & -> & Hc').
  { destruct Hd as [yr ? ? ? [Hlen Hall]|yr ? ? ? [Hlen Hall]|yr ? ? [Hlen Hall]];
      (destruct yr as [|c' yr]; [done|]); exists c'; eexists;
      (split; [done | by inversion Hall]). }
  by injection Hs as ->.
Qed.

(** Extending an input by a character that the grammar cannot start (or
    end) with gives a rejected input. *)
Lemma test_expanded_cons c s :
  ¬ is_digit c → test regex_iso8601_datetime (c :: s) = false.
Proof.
  intros Hc. apply not_true_is_false. rewrite test_expanded_grammar.
  by intros ?%datetime_starts_with_digit.
Qed.

Lemma test_expanded_snoc c s :
  ¬ is_digit c → c ≠ code "Z" → test regex_iso8601_datetime (s ++ [c]) = false.
Proof.
  intros Hc HZ. apply not_true_is_false. rewrite test_expanded_grammar.
  intros (c' & Hl & [?|?])%datetime_ends_in_digit_or_Z;
    rewrite last_snoc in Hl; by injection Hl as ->.
Qed.

(** ** Properties of the two patterns *)

(** Closed goals about concrete inputs, by evaluation of the matcher. *)
Ltac by_evaluation :=
  vm_compute; repeat match goal with |- _ ∧ _ => split end; reflexivity.

(** C1: for every input string, the fast-check pattern
    [regex_iso8601_datetime_minimalist] accepts the string if and only if
    the decomposing pattern [regex_iso8601_datetime] accepts it. *)
Theorem minimalist_accepts_same_language (input : str) :
  test regex_iso8601_datetime_minimalist input
  = test regex_iso8601_datetime input.
Proof.
  apply eq_true_iff_eq. rewrite !test_in_language.
  destruct minimalist_sim_expanded as [Hfwd Hbwd].
  unfold in_language, start. split; intros (k & y & Hk & Hy).
  - destruct (Hfwd _ (mkState k (drop k input) ∅) _ ltac:(done) Hy)
      as (y' & Hy' & _).
    by exists k, y'.
  - destruct (Hbwd _ (mkState k (drop k input) ∅) _ ltac:(done) Hy)
      as (y' & Hy' & _).
    by exists k, y'.
Qed.

(** C2: on every input on which the decomposing match succeeds, exactly
    one of the three date forms is populated (month and day, or week and
    weekday, or ordinalday) and the fields of the other two forms are
    absent. *)
Theorem date_forms_exclusive (input : str) (m : MatchArray) :
  exec regex_iso8601_datetime input = Some m → exactly_one_date_form m.
Proof.
  intros (d & yr & _ & _ & _ & Hforms)%expanded_date_groups.
  unfold exactly_one_date_form, calendar_form, week_form, ordinal_form,
    no_calendar_fields, no_week_fields, no_ordinal_fields, present, absent.
  destruct Hforms as
    [(h & mo & da & _ & _ & _ & _ & H3 & H4 & H5 & H6 & H7 & H8 & H9)
    |[(h & wk & wd & _ & _ & _ & _ & H6 & H7 & H8 & H3 & H4 & H5 & H9)
     |(h & od & _ & _ & _ & H9 & H3 & H4 & H5 & H6 & H7 & H8)]].
  - left. rewrite H4, H5, H6, H7, H8, H9. by split_and!.
  - right. left. rewrite H3, H4, H5, H7, H8, H9. by split_and!.
  - right. right. rewrite H3, H4, H5, H6, H7, H8, H9. by split_and!.
Qed.

Lemma date_forms_exclusive_witness :
  let input := utf16 "2020-W01-2T12:34:56+12:34" in
  exec regex_iso8601_datetime input = Some (the_match input) ∧
  exactly_one_date_form (the_match input).
Proof.
  split; [by vm_compute|].
  apply (date_forms_exclusive (utf16 "2020-W01-2T12:34:56+12:34")). by vm_compute.
Defined.

(** C3: in every accepted input of the calendar form, the string between
    year and month and the string between month and day are the same
    (both a hyphen, or both empty): it is the capture [ymd_hyphen]; likewise
    the two separators of the week form are the capture [ywd_hyphen].  The
    input "2020-0102T12:34:56" is rejected by both patterns. *)
Theorem date_separators_consistent :
  (∀ input m mo,
     exec regex_iso8601_datetime input = Some m →
     group "month" m = Some mo →
     ∃ yr h da tail,
       separator "-" h ∧ length yr = 4 ∧ length mo = 2 ∧ length da = 2 ∧
       input = yr ++ h ++ mo ++ h ++ da ++ tail ∧
       group "year" m = Some yr ∧ group "ymd_hyphen" m = Some h ∧
       group "day" m = Some da) ∧
  (∀ input m wk,
     exec regex_iso8601_datetime input = Some m →
     group "week" m = Some wk →
     ∃ yr h wd tail,
       separator "-" h ∧ length yr = 4 ∧ length wk = 2 ∧ length wd = 1 ∧
       input = yr ++ h ++ [code "W"] ++ wk ++ h ++ wd ++ tail ∧
       group "year" m = Some yr ∧ group "ywd_hyphen" m = Some h ∧
       group "weekday" m = Some wd) ∧
  rejected_by_both (utf16 "2020-0102T12:34:56").
Proof.
  split_and!; [| |by vm_compute].
  - intros input m mo He Hmo.
    destruct (expanded_super_groups _ _ He) as (d & t & z & -> & _ & _ & _ & Hd & _).
    destruct (expanded_date_groups _ _ He) as (d' & yr & Hd' & Hyr & [Hlen _] & Hforms).
    assert (d' = d) as -> by congruence.
    destruct Hforms as
      [(h & mo' & da & Hh & [Hlmo _] & [Hlda _] & -> & H3 & H4 & H5 & _)
      |[(h & wk & wd & _ & _ & _ & _ & _ & _ & _ & _ & H4 & _)
       |(h & od & _ & _ & _ & _ & _ & H4 & _)]]; [|congruence..].
    assert (mo' = mo) as -> by congruence.
    exists yr, h, da, ([code "T"] ++ t ++ z).
    split_and!; try done. by rewrite <-!(assoc_L (++)).
  - intros input m wk He Hwk.
    destruct (expanded_super_groups _ _ He) as (d & t & z & -> & _ & _ & _ & Hd & _).
    destruct (expanded_date_groups _ _ He) as (d' & yr & Hd' & Hyr & [Hlen _] & Hforms).
    assert (d' = d) as -> by congruence.
    destruct Hforms as
      [(h & mo & da & _ & _ & _ & _ & _ & _ & _ & _ & H7 & _)
      |[(h & wk' & wd & Hh & [Hlwk _] & Hwd & -> & H6 & H7 & H8 & _)
       |(h & od & _ & _ & _ & _ & _ & _ & _ & _ & H7 & _)]]; [congruence| |congruence].
    assert (wk' = wk) as -> by congruence.
    exists yr, h, [wd], ([code "T"] ++ t ++ z).
    split_and!; try done. by rewrite <-!(assoc_L (++)).
Qed.

Lemma date_separators_consistent_witness :
  (let input := utf16 "2020-01-02T12:34:56" in
   ∃ yr h da tail,
     separator "-" h ∧ length yr = 4 ∧ length (utf16 "01") = 2 ∧ length da = 2 ∧
     input = yr ++ h ++ utf16 "01" ++ h ++ da ++ tail ∧
     group "year" (the_match input) = Some yr ∧
     group "ymd_hyphen" (the_match input) = Some h ∧
     group "day" (the_match input) = Some da) ∧
  (let input := utf16 "2020W012T123456Z" in
   ∃ yr h wd tail,
     separator "-" h ∧ length yr = 4 ∧ length (utf16 "01") = 2 ∧ length wd = 1 ∧
     input = yr ++ h ++ [code "W"] ++ utf16 "01" ++ h ++ wd ++ tail ∧
     group "year" (the_match input) = Some yr ∧
     group "ywd_hyphen" (the_match input) = Some h ∧
     group "weekday" (the_match input) = Some wd).
Proof.
  split.
  - apply (proj1 date_separators_consistent (utf16 "2020-01-02T12:34:56")
             (the_match (utf16 "2020-01-02T12:34:56")) (utf16 "01"));
      by vm_compute.
  - apply (proj1 (proj2 date_separators_consistent) (utf16 "2020W012T123456Z")
             (the_match (utf16 "2020W012T123456Z")) (utf16 "01"));
      by vm_compute.
Defined.

(** C4: the separator of the date and the separator of the time are chosen
    independently: the date of any accepted input followed by [code "T"] and the
    time and timezone of any other accepted input is accepted again.  In
    particular "2020-01-02T123456" (hyphens, no colons) and
    "20200102T12:34:56" (no hyphens, colons) are accepted by both patterns,
    while colons used in one place of the time only are not. *)
Theorem date_and_time_separators_independent :
  (∀ input1 input2 m1 m2 d t,
     exec regex_iso8601_datetime input1 = Some m1 →
     exec regex_iso8601_datetime input2 = Some m2 →
     group "date" m1 = Some d → group "time" m2 = Some t →
     accepted_by_both
       (d ++ [code "T"] ++ t ++ default [] (group "tzinfo" m2))) ∧
  accepted_by_both (utf16 "2020-01-02T123456") ∧
  accepted_by_both (utf16 "20200102T12:34:56") ∧
  rejected_by_both (utf16 "2020-01-02T12:3456") ∧
  rejected_by_both (utf16 "2020-01-02T1234:56").
Proof.
  split_and!; [|by vm_compute..].
  intros input1 input2 m1 m2 d t He1 He2 Hd Ht.
  destruct (expanded_super_groups _ _ He1) as (d1 & _ & _ & _ & Hd1 & _ & _ & Hg1 & _).
  destruct (expanded_super_groups _ _ He2)
    as (_ & t2 & z2 & _ & _ & Ht2 & Hz2 & _ & Hg2 & Hgz).
  assert (d1 = d) as -> by congruence. assert (t2 = t) as -> by congruence.
  assert (default [] (group "tzinfo" m2) = z2) as ->.
  { rewrite Hgz. by case_decide. }
  unfold accepted_by_both. rewrite test_minimalist_expanded.
  split; apply test_expanded_grammar; by exists d, t, z2.
Qed.

Lemma date_and_time_separators_independent_witness :
  accepted_by_both (utf16 "2020-01-02" ++ [code "T"] ++ utf16 "123456" ++
    default [] (group "tzinfo" (the_match (utf16 "20200102T123456")))).
Proof.
  apply (proj1 date_and_time_separators_independent
           (utf16 "2020-01-02T12:34:56") (utf16 "20200102T123456")
           (the_match (utf16 "2020-01-02T12:34:56"))
           (the_match (utf16 "20200102T123456"))); by vm_compute.
Defined.

(** The strongest reading of C5 fails: "2020-01-02T12" is accepted and so is
    "2020-01-02T12Z"; "2020123T12" is accepted and so is "12020123T12". *)
Lemma extension_always_rejected_counterexample :
  accepted_by_both (utf16 "2020-01-02T12") ∧
  accepted_by_both (utf16 "2020-01-02T12" ++ [code "Z"]) ∧
  accepted_by_both (utf16 "2020123T12") ∧
  accepted_by_both (code "1" :: utf16 "2020123T12") ∧
  ¬ extension_always_rejected regex_iso8601_datetime ∧
  ¬ extension_always_rejected regex_iso8601_datetime_minimalist.
Proof.
  assert (test regex_iso8601_datetime (utf16 "2020-01-02T12") = true) as H1
    by by_evaluation.
  assert (test regex_iso8601_datetime (utf16 "2020-01-02T12" ++ [code "Z"]) = true)
    as H2 by by_evaluation.
  do 4 (split; [by_evaluation|]). split.
  - intros H. destruct (H _ (code "Z") H1) as [_ H3]. congruence.
  - intros H. rewrite <-!test_minimalist_expanded in H1, H2.
    destruct (H _ (code "Z") H1) as [_ H3]. congruence.
Qed.

(** C5, amended: both patterns are anchored to the entire input: a
    successful match starts at index 0 and is the whole input, so a match
    of a proper substring never counts as acceptance.  An input with an
    additional first character that is not an ASCII digit, or an additional
    last character that is neither an ASCII digit nor [Z], is rejected. *)
Theorem anchored_to_entire_input :
  whole_input_only regex_iso8601_datetime ∧
  whole_input_only regex_iso8601_datetime_minimalist ∧
  foreign_extension_rejected regex_iso8601_datetime ∧
  foreign_extension_rejected regex_iso8601_datetime_minimalist.
Proof.
  split_and!.
  - intros input m. by apply exec_anchored.
  - intros input m. by apply exec_anchored.
  - intros s c. split; [apply test_expanded_cons | apply test_expanded_snoc].
  - intros s c. rewrite !test_minimalist_expanded.
    split; [apply test_expanded_cons | apply test_expanded_snoc].
Qed.

Lemma anchored_to_entire_input_witness :
  let input := utf16 "2020-01-02T12:34:56" in
  (index (the_match input) = 0 ∧ whole (the_match input) = input) ∧
  test regex_iso8601_datetime (code " " :: input) = false ∧
  test regex_iso8601_datetime_minimalist (input ++ [code " "]) = false.
Proof.
  split; [|split].
  - apply (proj1 anchored_to_entire_input (utf16 "2020-01-02T12:34:56")).
    by vm_compute.
  - apply (proj1 (proj1 (proj2 (proj2 anchored_to_entire_input)) _ (code " "))).
    by vm_compute.
  - apply (proj2 (proj2 (proj2 (proj2 anchored_to_entire_input)) _ (code " ")));
      by vm_compute.
Defined.

(** C6: the time field is nested: hour alone, or hour and minute, or hour,
    minute and second; a second is never present without a minute; the
    microsecond is present only with a second, follows a literal ".", and
    has 1 to 6 digits.  An input ending in a two-digit hour is accepted, and
    a fraction of 7 digits is rejected. *)
Theorem time_fields_nested :
  (∀ input m,
     exec regex_iso8601_datetime input = Some m →
     nested_time_fields m ∧
     (present "second" m → present "minute" m) ∧
     (present "microsecond" m → present "second" m)) ∧
  accepted_by_both (utf16 "2020-01-02T12") ∧
  accepted_by_both (utf16 "2020-01-02T12:34") ∧
  accepted_by_both (utf16 "2020-01-02T12:34:56.1") ∧
  accepted_by_both (utf16 "2020-01-02T12:34:56.123456") ∧
  rejected_by_both (utf16 "2020-01-02T12:34:56.1234567") ∧
  rejected_by_both (utf16 "2020-01-02T12:34:56.") ∧
  rejected_by_both (utf16 "2020-01-02T12:34.5") ∧
  rejected_by_both (utf16 "2020-01-02T12.5").
Proof.
  split; [|by_evaluation].
  intros input m (t & hr & Ht & Hhr & [Hlen _] & Hforms)%expanded_time_groups.
  unfold nested_time_fields, present, absent.
  destruct Hforms as
    [(-> & _ & H13 & H14 & H15)
    |[(c & mi & Hc & [Hmi _] & -> & _ & H13 & H14 & H15)
     |[(c & mi & se & Hc & [Hmi _] & [Hse _] & -> & _ & H13 & H14 & H15)
      |(c & mi & se & us & Hc & [Hmi _] & [Hse _] & Hus & Hd & -> & _
          & H13 & H14 & H15)]]];
    rewrite H13, H14, H15.
  - split_and!; [|by intros [? ?]..]. exists hr, hr. split_and!; [done..|]. by left.
  - split_and!; [|by intros [? ?]..]. eexists _, hr. split_and!; [done..|].
    right. left. by exists c, mi.
  - split_and!; [|by eexists..]. eexists _, hr. split_and!; [done..|].
    right. right. left. by exists c, mi, se.
  - split_and!; [|by eexists..]. eexists _, hr. split_and!; [done..|].
    right. right. right. by exists c, mi, se, us.
Qed.

Lemma time_fields_nested_witness :
  let m := the_match (utf16 "2020-01-02T12:34:56.123") in
  nested_time_fields m ∧
  (present "second" m → present "minute" m) ∧
  (present "microsecond" m → present "second" m).
Proof.
  apply (proj1 time_fields_nested (utf16 "2020-01-02T12:34:56.123")).
  by vm_compute.
Defined.

(** C7: the timezone designator is optional; when present it is [Z], or a
    sign among "+", "-" and U+2212 followed by tzhour, then optionally
    tzminute, then optionally (only after tzminute) tzsecond.  Each colon of
    the offset is optional on its own, whatever the separators of the date
    and of the time are. *)
Theorem timezone_designator_forms :
  (∀ input m,
     exec regex_iso8601_datetime input = Some m →
     timezone_fields m ∧ (present "tzsecond" m → present "tzminute" m)) ∧
  accepted_by_both (utf16 "2020-01-02T12:34:56") ∧
  accepted_by_both (utf16 "2020-01-02T12:34:56Z") ∧
  accepted_by_both (utf16 "2020-01-02T12:34:56+12") ∧
  accepted_by_both (utf16 "2020-01-02T12:34:56-12") ∧
  accepted_by_both (utf16 "2020-01-02T12:34:56" ++ [U2212] ++ utf16 "12") ∧
  accepted_by_both (utf16 "2020-01-02T12:34:56+12:34") ∧
  accepted_by_both (utf16 "2020-01-02T12:34:56+1234") ∧
  accepted_by_both (utf16 "2020-01-02T12:34:56+12:34:56") ∧
  accepted_by_both (utf16 "2020-01-02T12:34:56+12:3456") ∧
  accepted_by_both (utf16 "2020-01-02T12:34:56+1234:56") ∧
  accepted_by_both (utf16 "20200102T123456+12:34") ∧
  rejected_by_both (utf16 "2020-01-02T12:34:56+1") ∧
  rejected_by_both (utf16 "2020-01-02T12:34:56*12") ∧
  rejected_by_both (utf16 "2020-01-02T12:34:56Z+12").
Proof.
  split; [|by_evaluation].
  intros input m Hforms%expanded_tzinfo_groups.
  unfold timezone_fields, present, absent.
  destruct Hforms as
    [(H16 & H17 & H18 & H19 & H20)
    |[(H16 & H17 & H18 & H19 & H20)
     |(sg & hh & Hsg & [Hhh _] & H17 & H18 &
        [(H16 & H19 & H20)
        |[(c1 & mm & Hc1 & [Hmm _] & H16 & H19 & H20)
         |(c1 & mm & c2 & ss & Hc1 & [Hmm _] & Hc2 & [Hss _] & H16 & H19 & H20)]])]];
    rewrite H16, H17, H18, H19, H20.
  - split; [by left | by intros [? ?]].
  - split; [by right; left | by intros [? ?]].
  - split; [|by intros [? ?]]. right. right. exists sg, hh.
    split_and!; [done..|]. by left.
  - split; [|by intros [? ?]]. right. right. exists sg, hh.
    split_and!; [done..|]. right. left. by exists c1, mm.
  - split; [|by eexists]. right. right. exists sg, hh.
    split_and!; [done..|]. right. right. by exists c1, mm, c2, ss.
Qed.

Lemma timezone_designator_forms_witness :
  let m := the_match (utf16 "2020-W01-2T12:34:56+12:34") in
  timezone_fields m ∧ (present "tzsecond" m → present "tzminute" m).
Proof.
  apply (proj1 timezone_designator_forms (utf16 "2020-W01-2T12:34:56+12:34")).
  by vm_compute.
Defined.

(** C9: the decomposition of an input that violates the grammar is the
    absent result ([None]), and of no other input; [exec] is a total
    function, there is no other failure.  The date-only input "2020-01-02"
    gives [None]. *)
Theorem no_match_on_grammar_violation :
  (∀ input, ¬ Grammar.datetime input →
            exec regex_iso8601_datetime input = None) ∧
  (∀ input, exec regex_iso8601_datetime input = None →
            ¬ Grammar.datetime input) ∧
  exec regex_iso8601_datetime (utf16 "2020-01-02") = None.
Proof.
  assert (∀ input, exec regex_iso8601_datetime input = None ↔
                   ¬ Grammar.datetime input) as Hiff.
  { intros input. rewrite <-test_expanded_grammar. unfold test.
    rewrite bool_decide_eq_true, <-not_eq_None_Some.
    destruct (exec regex_iso8601_datetime input); naive_solver. }
  split_and!; [apply Hiff.. | by vm_compute].
Qed.

Lemma no_match_on_grammar_violation_witness :
  exec regex_iso8601_datetime (utf16 "2020-01-02T") = None.
Proof.
  apply (proj1 no_match_on_grammar_violation (utf16 "2020-01-02T")).
  intros H%test_expanded_grammar. by vm_compute in H.
Defined.

(** C10: on every input on which the decomposing match succeeds, the date
    capture, the letter [code "T"], the time capture and the tzinfo capture (the
    empty string when tzinfo is absent) concatenate to the input. *)
Theorem super_groups_partition_input (input : str) (m : MatchArray) :
  exec regex_iso8601_datetime input = Some m →
  ∃ d t, group "date" m = Some d ∧ group "time" m = Some t ∧
         d ++ [code "T"] ++ t ++ default [] (group "tzinfo" m) = input.
Proof.
  intros (d & t & z & -> & _ & _ & _ & Hd & Ht & Hz)%expanded_super_groups.
  exists d, t. split_and!; [done..|]. rewrite Hz. by case_decide; subst.
Qed.

Lemma super_groups_partition_input_witness :
  let input := utf16 "2020123T12:34:56Z" in
  ∃ d t, group "date" (the_match input) = Some d ∧
         group "time" (the_match input) = Some t ∧
         d ++ [code "T"] ++ t ++ default [] (group "tzinfo" (the_match input))
         = input.
Proof.
  apply (super_groups_partition_input (utf16 "2020123T12:34:56Z")). by vm_compute.
Defined.

(** ** The demonstration loop *)

(** Every one of the 144 test cases of the source is matched, and the
    three reported groups are the three strings it was built from. *)
Lemma demonstration_all_matched :
  length (product [test_cases_date; test_cases_time; test_cases_tzinfo]) = 144 ∧
  forallb expected_report
    (product [test_cases_date; test_cases_time; test_cases_tzinfo]) = true.
Proof. by_evaluation. Qed.

(** ** The generator [product] *)

Section Product.

Context {A : Type}.
Implicit Types (l : list A) (ls : list (list A)) (t : list A).

Lemma length_flat_map_const {B} (f : A → list B) l n :
  (∀ x, length (f x) = n) → length (flat_map f l) = length l * n.
Proof.
  intros Hf. induction l as [|a l IH]; simpl; [done|].
  by rewrite length_app, Hf, IH.
Qed.

(** X1: the number of tuples is the product of the sizes of the
    iterables. *)
Theorem product_length ls :
  length (product ls) = foldr (λ l n, length l * n) 1 ls.
Proof.
  induction ls as [|l ls IH]; simpl; [done|].
  rewrite (length_flat_map_const _ l (length (product ls))), IH; [done|].
  intros x. by rewrite length_map.
Qed.

(** X2: for iterables that are arrays, the tuples are exactly the lists
    that take their i-th element from the i-th array. *)
Theorem elem_of_product ls t :
  t ∈ product ls ↔ Forall2 (λ x l, x ∈ l) t ls.
Proof.
  revert t. induction ls as [|l ls IH]; intros t; simpl.
  - rewrite list_elem_of_singleton. split; [by intros -> | by inversion 1].
  - rewrite list_elem_of_In, in_flat_map. split.
    + intros (x & Hx & Ht). apply list_elem_of_In in Hx.
      apply list_elem_of_In, list_elem_of_fmap in Ht as (t' & -> & Ht').
      constructor; [done | by apply IH].
    + inversion 1 as [|x l' t' ls' Hx Ht']; subst. exists x.
      rewrite <-!list_elem_of_In. split; [done|].
      apply list_elem_of_fmap. exists t'. split; [done | by apply IH].
Qed.

(** X3: an empty iterable among the arguments leaves nothing to
    generate. *)
Theorem product_empty_iterable ls : [] ∈ ls → product ls = [].
Proof.
  induction ls as [|l ls IH]; intros Hin; [by apply elem_of_nil in Hin|].
  apply elem_of_cons in Hin as [<-|Hin]; simpl; [done|].
  rewrite IH by done. clear. by induction l.
Qed.

(** X4: for iterables that are arrays, the tuples come in lexicographic
    order of the positions, the first array varying slowest: the tuple of
    the [i]-th item of the first array and the [j]-th tuple of the others
    is at index [i * n + j], where [n] is the number of tuples of the
    others. *)
Theorem product_lookup l ls i j a t :
  l !! i = Some a → product ls !! j = Some t →
  product (l :: ls) !! (i * length (product ls) + j) = Some (a :: t).
Proof.
  intros Ha Ht. simpl. revert i Ha.
  induction l as [|b l IH]; intros i Ha; [done|]. simpl.
  destruct i as [|i]; simpl in *.
  - injection Ha as ->. rewrite lookup_app_l.
    + by rewrite list_lookup_fmap, Ht.
    + rewrite length_map. by eapply lookup_lt_Some.
  - rewrite lookup_app_r; rewrite length_map; [|lia].
    replace (length (product ls) + i * length (product ls) + j
             - length (product ls))
      with (i * length (product ls) + j) by lia.
    by apply IH.
Qed.

(** X5: iterables without repeated items give tuples without
    repetition. *)
Theorem product_NoDup ls : Forall NoDup ls → NoDup (product ls).
Proof.
  induction 1 as [|l ls Hl _ IH]; simpl; [apply NoDup_singleton|].
  induction Hl as [|a l Ha _ IHl]; simpl; [constructor|].
  apply NoDup_app. split_and!; [|intros t Ht Ht'|done].
  - apply NoDup_fmap_2; [|done]. by intros t1 t2 [= ->].
  - apply list_elem_of_fmap in Ht as (t' & -> & _).
    apply list_elem_of_In, in_flat_map in Ht' as (b & Hb & Ht').
    apply list_elem_of_In, list_elem_of_fmap in Ht' as (t'' & [= <- _] & _).
    by apply list_elem_of_In in Hb.
Qed.

End Product.

Lemma product_empty_iterable_witness :
  product [[1; 2]; []; [3]] = [].
Proof.
  apply (product_empty_iterable [[1; 2]; []; [3]]).
  apply list_elem_of_further, list_elem_of_here.
Defined.

Lemma product_lookup_witness :
  product [[1; 2; 3]; [4; 5]; [6; 7]] !! (2 * 4 + 1) = Some [3; 4; 7].
Proof.
  apply (product_lookup [1; 2; 3] [[4; 5]; [6; 7]] 2 1 3 [4; 7]); reflexivity.
Defined.

Lemma product_NoDup_witness : NoDup (product [[1; 2]; [3; 4]]).
Proof.
  apply (product_NoDup [[1; 2]; [3; 4]]).
  repeat constructor; rewrite ?elem_of_cons, ?elem_of_nil; lia.
Defined.

(** ** The characters and the length of the strings of the grammar *)

Section GrammarStrings.

Lemma digit_string_Forall (P : char → Prop) n s :
  digit_string n s → (∀ c, is_digit c → P c) → Forall P s.
Proof. intros [_ Hall] HP. by eapply Forall_impl. Qed.

Lemma separator_Forall (P : char → Prop) a s :
  separator a s → P (code a) → Forall P s.
Proof. intros [-> | ->] HP; by repeat constructor. Qed.

Lemma separator_length a s : separator a s → length s ≤ 1.
Proof. intros [-> | ->]; simpl; lia. Qed.

Lemma weekday_is_digit c :
  in_class [(code "1", code "7")] c = true → is_digit c.
Proof.
  unfold is_digit, in_class, code. simpl.
  rewrite !orb_true_iff, !andb_true_iff, !N.leb_le. lia.
Qed.

Lemma date_chars d : Grammar.date d → Forall date_char d ∧ 7 ≤ length d ≤ 10.
Proof.
  unfold date_char.
  destruct 1 as [yr h mo da Hyr Hh Hmo Hda|yr h wk wd Hyr Hh Hwk Hwd
                |yr h od Hyr Hh Hod];
    pose proof (separator_length _ _ Hh);
    (split; [|rewrite !length_app; simpl;
              repeat match goal with H : digit_string _ _ |- _ =>
                destruct H as [-> _] end; lia]);
    repeat first
      [ apply Forall_app; split
      | by eapply digit_string_Forall; [|left]
      | by eapply separator_Forall; [|right; left]
      | apply Forall_cons; split
      | apply Forall_nil ];
    auto using weekday_is_digit.
Qed.

Lemma time_chars t : Grammar.time t → Forall time_char t ∧ 2 ≤ length t ≤ 15.
Proof.
  unfold time_char.
  destruct 1 as [hr Hhr|hr c mi Hhr Hc Hmi|hr c mi se Hhr Hc Hmi Hse
                |hr c mi se us Hhr Hc Hmi Hse Hlen Hus];
    try pose proof (separator_length _ _ Hc);
    (split; [|rewrite ?length_app; simpl;
              repeat match goal with H : digit_string _ _ |- _ =>
                destruct H as [-> _] end; lia]);
    repeat first
      [ apply Forall_app; split
      | by eapply digit_string_Forall; [|left]
      | by eapply separator_Forall; [|right; left]
      | apply Forall_cons; split
      | apply Forall_nil
      | by eapply Forall_impl; [apply Hus | left] ];
    auto.
Qed.

Lemma tzinfo_chars z :
  Grammar.tzinfo z →
  Forall tzinfo_char z ∧ 1 ≤ length z ≤ 9 ∧
  ∃ c z', z = c :: z' ∧ ¬ time_char c.
Proof.
  unfold tzinfo_char.
  assert (∀ sg, is_sign sg → ¬ time_char sg) as Hsign.
  { intros sg [-> | [-> | ->]] [H | [H | H]]; by vm_compute in H. }
  destruct 1 as [|sg hh Hsg Hhh|sg hh c1 mm Hsg Hhh Hc1 Hmm
                |sg hh c1 mm c2 ss Hsg Hhh Hc1 Hmm Hc2 Hss];
    try pose proof (separator_length _ _ Hc1);
    try pose proof (separator_length _ _ Hc2).
  all: split_and!;
    [
    | rewrite ?length_app; simpl; rewrite ?length_app;
      repeat match goal with H : digit_string _ _ |- _ =>
        destruct H as [-> _] end; lia
    | rewrite ?length_app; simpl; rewrite ?length_app;
      repeat match goal with H : digit_string _ _ |- _ =>
        destruct H as [-> _] end; lia
    | ].
  all: try (eexists _, _; split; [reflexivity|]; first
              [ by apply Hsign
              | intros [H | [H | H]]; by vm_compute in H ]).
  all: repeat first
      [ apply Forall_app; split
      | by eapply digit_string_Forall; [|left]
      | by eapply separator_Forall; [|right; left]
      | apply Forall_cons; split
      | apply Forall_nil ];
    auto.
Qed.

Lemma app_pivot_unique (x : char) l1 l2 r1 r2 :
  x ∉ l1 → x ∉ l2 → l1 ++ x :: r1 = l2 ++ x :: r2 → l1 = l2 ∧ r1 = r2.
Proof.
  revert l2. induction l1 as [|a l1 IH]; intros [|b l2] H1 H2; simpl.
  - by intros [= ->].
  - intros [= <- _]. destruct H2. by left.
  - intros [= -> _]. destruct H1. by left.
  - intros [= -> Heq]. apply not_elem_of_cons in H1 as [_ H1].
    apply not_elem_of_cons in H2 as [_ H2].
    destruct (IH l2 H1 H2 Heq) as [-> ->]. done.
Qed.

Lemma app_class_unique (P : char → Prop) t1 t2 z1 z2 :
  Forall P t1 → Forall P t2 → starts_outside P z1 → starts_outside P z2 →
  t1 ++ z1 = t2 ++ z2 → t1 = t2 ∧ z1 = z2.
Proof.
  intros Ht1. revert t2. induction Ht1 as [|a t1 Ha Ht1 IH];
    intros t2 Ht2 Hz1 Hz2; destruct Ht2 as [|b t2 Hb Ht2]; simpl.
  - done.
  - intros ->. destruct Hz1 as [?|(c & z' & [= -> ->] & Hc)]; done.
  - intros <-. destruct Hz2 as [?|(c & z' & [= -> ->] & Hc)]; done.
  - intros [= -> Heq]. destruct (IH t2 Ht2 Hz1 Hz2 Heq) as [-> ->]. done.
Qed.

(** An input is read by the grammar in one way only. *)
Lemma datetime_split_unique d t z d' t' z' :
  Grammar.date d → Grammar.time t → z = [] ∨ Grammar.tzinfo z →
  Grammar.date d' → Grammar.time t' → z' = [] ∨ Grammar.tzinfo z' →
  d ++ [code "T"] ++ t ++ z = d' ++ [code "T"] ++ t' ++ z' →
  d = d' ∧ t = t' ∧ z = z'.
Proof.
  intros [Hd _]%date_chars [Ht _]%time_chars Hz
         [Hd' _]%date_chars [Ht' _]%time_chars Hz' Heq.
  assert (∀ s, Forall date_char s → code "T" ∉ s) as HT.
  { intros s Hs Hin. apply (proj1 (Forall_forall _ _) Hs) in Hin.
    destruct Hin as [H | [H | H]]; by vm_compute in H. }
  assert (∀ z, z = [] ∨ Grammar.tzinfo z → starts_outside time_char z) as Hout.
  { intros z0 [->|(_ & _ & Hz0)%tzinfo_chars]; [by left | by right]. }
  apply app_pivot_unique in Heq as [-> Heq]; [|by apply HT..].
  apply (app_class_unique time_char) in Heq as [-> ->]; auto.
Qed.

End GrammarStrings.

(** ** The loop over the samples *)

Lemma exec_expanded_groups d t z :
  Grammar.date d → Grammar.time t → z = [] ∨ Grammar.tzinfo z →
  ∃ m, exec regex_iso8601_datetime (d ++ [code "T"] ++ t ++ z) = Some m ∧
       group "date" m = Some d ∧ group "time" m = Some t ∧
       group "tzinfo" m = (if decide (z = []) then None else Some z).
Proof.
  intros Hd Ht Hz.
  assert (test regex_iso8601_datetime (d ++ [code "T"] ++ t ++ z) = true) as Htest.
  { apply test_expanded_grammar. by exists d, t, z. }
  apply bool_decide_eq_true in Htest as [m Hm]. exists m. split; [done|].
  destruct (expanded_super_groups _ _ Hm)
    as (d' & t' & z' & Heq & Hd' & Ht' & Hz' & Hgd & Hgt & Hgz).
  by destruct (datetime_split_unique _ _ _ _ _ _ Hd Ht Hz Hd' Ht' Hz' Heq)
    as (-> & -> & ->).
Qed.

Lemma console_log_line_matched d t z :
  Grammar.date d → Grammar.time t → z = [] ∨ Grammar.tzinfo z →
  console_log_line [d; t; z] = matched_line d t z.
Proof.
  intros Hd Ht Hz. unfold console_log_line, matched_line.
  change ([d; t; z] !! 0) with (Some d). change ([d; t; z] !! 1) with (Some t).
  change ([d; t; z] !! 2) with (Some z).
  change (template (Some d)) with d. change (template (Some t)) with t.
  change (template (Some z)) with z.
  destruct (exec_expanded_groups d t z Hd Ht Hz) as (m & Hm & Hgd & Hgt & Hgz).
  change (utf16 "T") with [code "T"]. cbv zeta. rewrite Hm, Hgd, Hgt, Hgz.
  by destruct z.
Qed.

(** X6: when the samples of the three lists are dates, times and timezone
    designators (or empty strings) of the grammar, the loop prints one line
    for every combination, in the order of [product], none of them "not
    matched", and the three groups it reports are the three samples the
    test case was built from ("undefined" for an empty timezone). *)
Theorem console_output_all_matched dates times tzinfos :
  Forall Grammar.date dates → Forall Grammar.time times →
  Forall (λ z, z = [] ∨ Grammar.tzinfo z) tzinfos →
  console_output dates times tzinfos =
  flat_map (λ d, flat_map (λ t, map (matched_line d t) tzinfos) times) dates.
Proof.
  intros Hd Ht Hz. unfold console_output. simpl.
  induction Hd as [|d dates Hd _ IHd]; simpl; [done|].
  rewrite map_app, IHd. f_equal. clear IHd.
  rewrite map_map.
  induction Ht as [|t times Ht _ IHt]; simpl; [done|].
  rewrite map_app, IHt. f_equal. clear IHt.
  rewrite map_map.
  induction Hz as [|z tzinfos Hz _ IHz]; simpl; [done|].
  rewrite IHz. f_equal. by apply console_log_line_matched.
Qed.

Lemma test_cases_in_grammar :
  Forall Grammar.date test_cases_date ∧ Forall Grammar.time test_cases_time ∧
  Forall (λ z, z = [] ∨ Grammar.tzinfo z) test_cases_tzinfo.
Proof.
  assert (∀ n s, length s = n → forallb (in_class [(code "0", code "9")]) s = true →
                 digit_string n s) as Hdigits.
  { intros n s Hlen Hall. split; [done|].
    apply Forall_forall. intros c Hc%list_elem_of_In.
    by apply (proj1 (forallb_forall _ _) Hall). }
  split_and!; repeat apply Forall_cons_2; try apply Forall_nil_2.
  - apply (Grammar.date_calendar (utf16 "2020") (utf16 "-") (utf16 "01") (utf16 "02"));
      first [by apply Hdigits | by right].
  - apply (Grammar.date_calendar (utf16 "2020") [] (utf16 "01") (utf16 "02"));
      first [by apply Hdigits | by left].
  - apply (Grammar.date_week (utf16 "2020") (utf16 "-") (utf16 "01") (code "2"));
      first [by apply Hdigits | by right | done].
  - apply (Grammar.date_week (utf16 "2020") [] (utf16 "01") (code "2"));
      first [by apply Hdigits | by left | done].
  - apply (Grammar.date_ordinal (utf16 "2020") [] (utf16 "123"));
      first [by apply Hdigits | by left].
  - apply (Grammar.date_ordinal (utf16 "2020") (utf16 "-") (utf16 "123"));
      first [by apply Hdigits | by right].
  - apply (Grammar.time_second (utf16 "12") (utf16 ":") (utf16 "34") (utf16 "56"));
      first [by apply Hdigits | by right].
  - apply (Grammar.time_second (utf16 "12") [] (utf16 "34") (utf16 "56"));
      first [by apply Hdigits | by left].
  - apply (Grammar.time_frac (utf16 "12") (utf16 ":") (utf16 "34") (utf16 "56")
             (utf16 "123456"));
      first [by apply Hdigits | by right | simpl; lia | by apply (Hdigits 6)].
  - apply (Grammar.time_frac (utf16 "12") [] (utf16 "34") (utf16 "56")
             (utf16 "123456"));
      first [by apply Hdigits | by left | simpl; lia | by apply (Hdigits 6)].
  - by left.
  - right. apply Grammar.tzinfo_Z.
  - right. apply (Grammar.tzinfo_minute (code "+") (utf16 "12") (utf16 ":") (utf16 "34"));
      first [by apply Hdigits | by right | by left].
  - right. apply (Grammar.tzinfo_minute (code "+") (utf16 "12") [] (utf16 "34"));
      first [by apply Hdigits | by left].
  - right. apply (Grammar.tzinfo_hour (code "+") (utf16 "12"));
      first [by apply Hdigits | by left].
  - right. apply (Grammar.tzinfo_second (code "+") (utf16 "12") [] (utf16 "34") []
                    (utf16 "56"));
      first [by apply Hdigits | by left].
Qed.

Lemma console_output_all_matched_witness :
  console_output test_cases_date test_cases_time test_cases_tzinfo =
  flat_map (λ d, flat_map (λ t, map (matched_line d t) test_cases_tzinfo)
                   test_cases_time) test_cases_date.
Proof.
  apply (console_output_all_matched test_cases_date test_cases_time
           test_cases_tzinfo); apply test_cases_in_grammar.
Defined.

(** ** Length and characters of the accepted inputs *)

Lemma datetime_chars s :
  Grammar.datetime s → 10 ≤ length s ≤ 35 ∧ Forall in_alphabet s.
Proof.
  intros (d & t & z & -> & [Hd Hld]%date_chars & [Ht Hlt]%time_chars & Hz).
  assert (Forall in_alphabet z ∧ length z ≤ 9) as [Hz' Hlz].
  { destruct Hz as [->|(Hz & Hlz & _)%tzinfo_chars]; [by split; [|simpl; lia]|].
    split; [|lia]. eapply Forall_impl; [done|]. unfold in_alphabet, punctuation.
    intros c [?|[->|[->|[->|[->| ->]]]]]; rewrite ?elem_of_cons; auto 12. }
  rewrite !length_app. simpl. split; [lia|].
  repeat first [apply Forall_app; split | apply Forall_cons_2 | apply Forall_nil_2];
    try done.
  - eapply Forall_impl; [done|]. unfold in_alphabet, punctuation.
    intros c [?|[->| ->]]; rewrite ?elem_of_cons; auto 12.
  - right. unfold punctuation. rewrite ?elem_of_cons; auto 12.
  - eapply Forall_impl; [done|]. unfold in_alphabet, punctuation.
    intros c [?|[->| ->]]; rewrite ?elem_of_cons; auto 12.
Qed.

(** X7: an accepted input has between 10 and 35 code units (both bounds
    are reached), all of them ASCII digits or among "-", "W", "T", ":",
    ".", "Z", "+" and U+2212: no white space, no line break, no other
    digits. *)
Theorem accepted_inputs_bounded :
  (∀ input, test regex_iso8601_datetime input = true →
            10 ≤ length input ≤ 35 ∧ Forall in_alphabet input) ∧
  (∀ input, test regex_iso8601_datetime_minimalist input = true →
            10 ≤ length input ≤ 35 ∧ Forall in_alphabet input) ∧
  (∃ input, length input = 10 ∧ accepted_by_both input) ∧
  (∃ input, length input = 35 ∧ accepted_by_both input).
Proof.
  split_and!.
  - intros input Ht%test_expanded_grammar. by apply datetime_chars.
  - intros input Ht. rewrite test_minimalist_expanded in Ht.
    apply test_expanded_grammar in Ht. by apply datetime_chars.
  - exists (utf16 "2020123T12"). by_evaluation.
  - exists (utf16 "2020-01-02T12:34:56.123456+12:34:56"). by_evaluation.
Qed.

Lemma accepted_inputs_bounded_witness :
  10 ≤ length (utf16 "2020-W01-2T12:34Z") ≤ 35 ∧
  Forall in_alphabet (utf16 "2020-W01-2T12:34Z").
Proof.
  apply (proj1 accepted_inputs_bounded (utf16 "2020-W01-2T12:34Z")).
  by vm_compute.
Defined.

(** ** The run of the expanded pattern is unique *)

Section Unique.

Lemma digit_string_2_inv s :
  digit_string 2 s → ∃ a b, s = [a; b] ∧ is_digit a ∧ is_digit b.
Proof.
  intros [Hlen Hall]. destruct s as [|a [|b [|? ?]]]; try done.
  exists a, b. inversion Hall as [|? ? ? Hb]; inversion Hb; subst. done.
Qed.

Lemma digit_string_3_inv s :
  digit_string 3 s →
  ∃ a b c, s = [a; b; c] ∧ is_digit a ∧ is_digit b ∧ is_digit c.
Proof.
  intros [Hlen Hall]. destruct s as [|a [|b [|c [|? ?]]]]; try done.
  exists a, b, c. inversion Hall as [|? ? ? Hb]; inversion Hb as [|? ? ? Hc];
    inversion Hc; subst. done.
Qed.

Lemma digit_string_4_inv s :
  digit_string 4 s →
  ∃ a b c d, s = [a; b; c; d] ∧
             is_digit a ∧ is_digit b ∧ is_digit c ∧ is_digit d.
Proof.
  intros [Hlen Hall]. destruct s as [|a [|b [|c [|d [|? ?]]]]]; try done.
  exists a, b, c, d. inversion Hall as [|? ? ? Hb]; inversion Hb as [|? ? ? Hc];
    inversion Hc as [|? ? ? Hd]; inversion Hd; subst. done.
Qed.

End Unique.

(** Splits the strings of a shape into their characters. *)
Ltac explode_shape :=
  repeat match goal with
  | d := _ |- _ => subst d
  | H : separator _ _ |- _ => destruct H as [-> | ->]
  | H : digit_string 2 _ |- _ =>
      apply digit_string_2_inv in H as (? & ? & -> & ? & ?)
  | H : digit_string 3 _ |- _ =>
      apply digit_string_3_inv in H as (? & ? & ? & -> & ? & ? & ?)
  | H : digit_string 4 _ |- _ =>
      apply digit_string_4_inv in H as (? & ? & ? & ? & -> & ? & ? & ? & ?)
  end.

(** A character of the pattern is not a digit, and not a weekday. *)
Ltac absurd_char :=
  match goal with
  | H : is_digit ?c |- _ => assert_fails (is_var c); by vm_compute in H
  | H : in_class _ ?c = true |- _ => assert_fails (is_var c); by vm_compute in H
  | H : is_sign ?c |- _ =>
      assert_fails (is_var c);
      destruct H as [H | [H | H]]; by vm_compute in H
  | H : Forall is_digit (?c :: _) |- _ =>
      assert_fails (is_var c);
      apply Forall_cons_1 in H as [H _]; by vm_compute in H
  end.

Lemma date_shape_unique c0 d1 d2 c1 c2 :
  date_shape c0 d1 c1 → date_shape c0 d2 c2 → d1 = d2 → c1 = c2.
Proof.
  destruct 1; destruct 1; intros Heq; explode_shape;
    simplify_eq/=; first [done | absurd_char].
Qed.

Lemma time_shape_unique c0 t1 t2 c1 c2 :
  time_shape c0 t1 c1 → time_shape c0 t2 c2 → t1 = t2 → c1 = c2.
Proof.
  destruct 1; destruct 1; intros Heq; explode_shape;
    simplify_eq/=; first [done | absurd_char].
Qed.

Lemma tzinfo_shape_unique c0 z1 z2 c1 c2 :
  tzinfo_shape c0 z1 c1 → tzinfo_shape c0 z2 c2 → z1 = z2 → c1 = c2.
Proof.
  destruct 1; destruct 1; intros Heq; explode_shape;
    simplify_eq/=; first [done | absurd_char].
Qed.

(** Every run of the pattern ends with the captures that [exec] returns. *)
Lemma expanded_captures_unique input m k y :
  exec regex_iso8601_datetime input = Some m →
  Matches (body regex_iso8601_datetime) (start k input) y →
  captures y = groups_by_index m.
Proof.
  intros (_ & _ & _ & d & t & z & cd & ct & Hin & Hd & Ht & Hz)%exec_expanded_inv
         (Hk & Hr & He & d' & t' & z' & cd' & ct' & Hin' & Hd' & Ht' & Hz')
           %expanded_run_inv.
  simpl in *. subst k. rewrite drop_0 in *.
  apply date_group_inv in Hd, Hd'. apply time_group_inv in Ht, Ht'.
  apply tzinfo_group_inv in Hz, Hz'.
  rewrite Hin in Hin'.
  destruct (datetime_split_unique d t z d' t' z') as (<- & <- & <-);
    eauto using date_shape_grammar, time_shape_grammar, tzinfo_shape_grammar.
  assert (cd' = cd) as -> by by eapply date_shape_unique.
  assert (ct' = ct) as -> by by eapply time_shape_unique.
  by eapply tzinfo_shape_unique.
Qed.

(** X8: the result does not depend on the order in which the alternatives
    and the optional parts are tried: whenever the decomposing match
    succeeds, the run it found is the only run of the pattern on the
    input, from whatever start index. *)
Theorem expanded_run_unique input m k y :
  exec regex_iso8601_datetime input = Some m →
  Matches (body regex_iso8601_datetime) (start k input) y →
  k = 0 ∧ y = mkState (length input) [] (groups_by_index m).
Proof.
  intros Hm Hy. pose proof (expanded_captures_unique _ _ _ _ Hm Hy) as Hc.
  apply expanded_run_inv in Hy as (Hk & Hr & He & _).
  simpl in *. subst k. split; [done|]. rewrite drop_0 in He.
  destruct y as [e r c]. simpl in *. by subst.
Qed.

Lemma expanded_run_unique_witness :
  let input := utf16 "2020-01-02T12:34:56Z" in
  0 = 0 ∧
  mkState (length input) [] (groups_by_index (the_match input))
  = mkState (length input) [] (groups_by_index (the_match input)).
Proof.
  apply (expanded_run_unique (utf16 "2020-01-02T12:34:56Z")
           (the_match (utf16 "2020-01-02T12:34:56Z")) 0); [by vm_compute|].
  assert (exec_from (body regex_iso8601_datetime) 0 (utf16 "2020-01-02T12:34:56Z")
          = Some (0, mkState (length (utf16 "2020-01-02T12:34:56Z")) []
                       (groups_by_index (the_match (utf16 "2020-01-02T12:34:56Z")))))
    as Hex by (vm_compute; reflexivity).
  apply exec_from_sound in Hex as (k & Hk & _ & Hrun).
  assert (k = 0) as -> by lia. exact Hrun.
Defined.

(** X9: the three unnamed groups of the minimalist pattern hold what the
    groups [ymd_hyphen], [ywd_hyphen] and [hms_colon] of the expanded
    pattern hold on the same input. *)
Theorem minimalist_groups_are_separators input m' :
  exec regex_iso8601_datetime_minimalist input = Some m' →
  ∃ m, exec regex_iso8601_datetime input = Some m ∧
       group_at 1 m' = group "ymd_hyphen" m ∧
       group_at 2 m' = group "ywd_hyphen" m ∧
       group_at 3 m' = group "hms_colon" m.
Proof.
  intros Hmin.
  assert (test regex_iso8601_datetime input = true) as Htest.
  { rewrite <-test_minimalist_expanded. apply bool_decide_eq_true. by eexists. }
  apply bool_decide_eq_true in Htest as [m Hm]. exists m. split; [done|].
  unfold exec in Hmin.
  destruct (exec_from _ 0 input) as [[j y']|] eqn:Hex; [|done].
  simpl in Hmin. injection Hmin as <-. unfold group_at. simpl.
  apply exec_from_sound in Hex as (k & -> & Hk & Hy').
  destruct (proj1 minimalist_sim_expanded _ (mkState k (drop k input) ∅) _
              ltac:(done) Hy') as (y & Hy & _ & _ & Hcaps).
  rewrite (expanded_captures_unique input m k y Hm Hy) in Hcaps.
  pose proof (proj1 (proj2 (proj2 (exec_expanded_inv _ _ Hm)))) as Hn.
  group_index Hn.
  split_and!; apply Hcaps; unfold group_map; lia.
Qed.

Lemma minimalist_groups_are_separators_witness :
  let input := utf16 "2020-W01-2T12:34:56" in
  ∃ m, exec regex_iso8601_datetime input = Some m ∧
       group_at 1 (default (mkMatchArray 0 [] ∅ [])
                     (exec regex_iso8601_datetime_minimalist input))
       = group "ymd_hyphen" m ∧
       group_at 2 (default (mkMatchArray 0 [] ∅ [])
                     (exec regex_iso8601_datetime_minimalist input))
       = group "ywd_hyphen" m ∧
       group_at 3 (default (mkMatchArray 0 [] ∅ [])
                     (exec regex_iso8601_datetime_minimalist input))
       = group "hms_colon" m.
Proof.
  apply (minimalist_groups_are_separators (utf16 "2020-W01-2T12:34:56")).
  by vm_compute.
Defined.

(** ** The click handler of the collapsible elements *)

Section CollapsibleFacts.

Import Collapsible.

Lemma elem_of_toggle token tokens t :
  t ∈ toggle token tokens ↔
  (t ≠ token ∧ t ∈ tokens) ∨ (t = token ∧ token ∉ tokens).
Proof.
  unfold toggle. destruct (decide (token ∈ tokens)) as [Hin|Hin].
  - rewrite list_elem_of_filter. intuition congruence.
  - rewrite elem_of_app, list_elem_of_singleton.
    destruct (decide (t = token)); intuition congruence.
Qed.

Lemma NoDup_toggle token tokens : NoDup tokens → NoDup (toggle token tokens).
Proof.
  intros Hnd. unfold toggle. destruct (decide (token ∈ tokens)) as [Hin|Hin].
  - by apply NoDup_filter.
  - apply NoDup_app. split_and!; [done| |apply NoDup_singleton].
    intros t Ht ->%list_elem_of_singleton. done.
Qed.

(** X10: a click keeps the class and the panel in sync: when the element
    has a next sibling that is displayed as a block exactly when the
    element is marked "active" (as on a fresh page, with no mark and no
    inline display), the handler returns, the same holds afterwards, and
    the display is "block" or "none". *)
Theorem on_click_keeps_in_sync this :
  in_sync this →
  (on_click this).2 = Returned ∧ in_sync (on_click this).1 ∧
  (nextElementSibling (on_click this).1 = Some "block" ∨
   nextElementSibling (on_click this).1 = Some "none").
Proof.
  intros (display & Hnext & Hsync). unfold on_click, in_sync. rewrite Hnext.
  simpl. split; [done|].
  destruct (decide (display = "block")) as [->|Hne].
  - split; [|by right]. exists "none". split; [done|].
    rewrite elem_of_toggle. intuition congruence.
  - split; [|by left]. exists "block". split; [done|].
    rewrite elem_of_toggle. intuition congruence.
Qed.

Lemma on_click_keeps_in_sync_witness :
  let this := mkTarget ["collapsible"] (Some "") in
  (on_click this).2 = Returned ∧ in_sync (on_click this).1 ∧
  (nextElementSibling (on_click this).1 = Some "block" ∨
   nextElementSibling (on_click this).1 = Some "none").
Proof.
  apply (on_click_keeps_in_sync (mkTarget ["collapsible"] (Some ""))).
  exists "". split; [reflexivity|]. split; [|done].
  intros Hin. by apply list_elem_of_singleton in Hin.
Defined.

(** X11: two clicks give back the classes the element had, as a
    permutation and without repetition, with either handler.  The handler
    of [regex_iso8601_datetime.js] leaves the panel hidden unless it was
    displayed as a block before (and there is still no panel when there was
    none); the handler of the second file does not touch the display. *)
Theorem two_clicks_restore_classes this :
  NoDup (classList this) →
  let this2 := (on_click (on_click this).1).1 in
  let that2 := on_click_class_only (on_click_class_only this) in
  ((∀ t, t ∈ classList this2 ↔ t ∈ classList this) ∧
   NoDup (classList this2) ∧
   classList this2 ≡ₚ classList this ∧
   (∀ display, nextElementSibling this = Some display →
      nextElementSibling this2
      = Some (if decide (display = "block") then "block" else "none")) ∧
   (nextElementSibling this = None → nextElementSibling this2 = None)) ∧
  ((∀ t, t ∈ classList that2 ↔ t ∈ classList this) ∧
   NoDup (classList that2) ∧
   classList that2 ≡ₚ classList this ∧
   nextElementSibling that2 = nextElementSibling this).
Proof.
  intros Hnd this2 that2.
  assert (∀ tokens t, t ∈ toggle "active" (toggle "active" tokens) ↔ t ∈ tokens)
    as Htwice.
  { intros tokens t. rewrite !elem_of_toggle.
    destruct (decide (t = "active")) as [->|?],
      (decide ("active" ∈ tokens)); intuition congruence. }
  assert (NoDup (toggle "active" (toggle "active" (classList this)))) as Hnd2
    by by do 2 apply NoDup_toggle.
  assert (classList this2 = toggle "active" (toggle "active" (classList this)))
    as Hcl.
  { unfold this2, on_click. by destruct (nextElementSibling this). }
  assert (classList that2 = toggle "active" (toggle "active" (classList this)))
    as Hcl' by done.
  split; split_and!.
  - intros t. by rewrite Hcl.
  - by rewrite Hcl.
  - rewrite Hcl. by apply NoDup_Permutation.
  - intros display Hnext. unfold this2, on_click. rewrite Hnext. simpl.
    by destruct (decide (display = "block")) as [->|?].
  - intros Hnext. unfold this2, on_click. by rewrite Hnext.
  - intros t. by rewrite Hcl'.
  - by rewrite Hcl'.
  - rewrite Hcl'. by apply NoDup_Permutation.
  - done.
Qed.

Lemma two_clicks_restore_classes_witness :
  let this := mkTarget ["collapsible"; "active"; "wide"] (Some "block") in
  let this2 := (on_click (on_click this).1).1 in
  let that2 := on_click_class_only (on_click_class_only this) in
  ((∀ t, t ∈ classList this2 ↔ t ∈ classList this) ∧
   NoDup (classList this2) ∧
   classList this2 ≡ₚ classList this ∧
   (∀ display, nextElementSibling this = Some display →
      nextElementSibling this2
      = Some (if decide (display = "block") then "block" else "none")) ∧
   (nextElementSibling this = None → nextElementSibling this2 = None)) ∧
  ((∀ t, t ∈ classList that2 ↔ t ∈ classList this) ∧
   NoDup (classList that2) ∧
   classList that2 ≡ₚ classList this ∧
   nextElementSibling that2 = nextElementSibling this).
Proof.
  apply (two_clicks_restore_classes
           (mkTarget ["collapsible"; "active"; "wide"] (Some "block"))).
  simpl. repeat apply NoDup_cons_2; try apply NoDup_nil_2;
    rewrite ?elem_of_cons, ?elem_of_nil; intuition discriminate.
Defined.

End CollapsibleFacts.

(** ** No calendar validation *)

(** The groups of an input in the calendar form with hyphens and colons
    are the digit strings it is written with, whatever their values. *)
Lemma calendar_input_groups yr mo da hr mi se :
  digit_string 4 yr → digit_string 2 mo → digit_string 2 da →
  digit_string 2 hr → digit_string 2 mi → digit_string 2 se →
  ∃ m, exec regex_iso8601_datetime
         (yr ++ utf16 "-" ++ mo ++ utf16 "-" ++ da ++ utf16 "T"
          ++ hr ++ utf16 ":" ++ mi ++ utf16 ":" ++ se) = Some m ∧
       group "year" m = Some yr ∧ group "month" m = Some mo ∧
       group "day" m = Some da ∧ group "hour" m = Some hr ∧
       group "minute" m = Some mi ∧ group "second" m = Some se.
Proof.
  intros Hyr Hmo Hda Hhr Hmi Hse.
  change (utf16 "-") with [code "-"]. change (utf16 ":") with [code ":"].
  change (utf16 "T") with [code "T"].
  pose proof (Calendar ∅ yr [code "-"] mo da Hyr ltac:(by right) Hmo Hda) as Hd.
  cbv zeta in Hd.
  set (d := yr ++ [code "-"] ++ mo ++ [code "-"] ++ da) in Hd.
  pose (t := hr ++ [code ":"] ++ mi ++ [code ":"] ++ se).
  assert (yr ++ [code "-"] ++ mo ++ [code "-"] ++ da ++ [code "T"]
          ++ hr ++ [code ":"] ++ mi ++ [code ":"] ++ se
          = d ++ [code "T"] ++ t ++ []) as ->.
  { unfold d, t. by rewrite (right_id_L [] (++)), <-!(assoc_L (++)). }
  destruct (exec_expanded_groups d t [])
    as (m & Hm & _); [by eapply date_shape_grammar | | by left |].
  { unfold t. by apply (Grammar.time_second hr [code ":"] mi se); [|right|..]. }
  exists m. split; [done|].
  destruct (exec_expanded_decomposition _ _ Hm)
    as (d' & t' & z' & cd & ct & [_ _ Hn Hin Hd' Ht' Hz' Hfd Hft]).
  destruct (datetime_split_unique d t [] d' t' z') as (<- & <- & <-);
    eauto using date_shape_grammar, time_shape_grammar, tzinfo_shape_grammar.
  { unfold t. by apply (Grammar.time_second hr [code ":"] mi se); [|right|..]. }
  pose proof (date_shape_unique _ _ _ _ _ Hd Hd' eq_refl) as <-.
  pose proof (HourMinuteSecond
                (<[1 := d]> (<[5 := da]> (<[4 := mo]> (<[3 := [code "-"]]>
                   (<[2 := yr]> ∅)))))
                hr [code ":"] mi se Hhr ltac:(by right) Hmi Hse) as Ht.
  cbv zeta in Ht.
  pose proof (time_shape_unique _ _ _ _ _ Ht Ht' eq_refl) as <-.
  group_index Hn. rewrite !Hfd, !Hft by lia. caps_lookup. done.
Qed.

(** C8: no calendar validation is done: every input of the grammar, which
    only counts digits, is accepted by both patterns whatever the values
    are; in the calendar form any two digits are captured as month, day,
    hour, minute and second.  "2020-13-99T12:34:56" (month 13, day 99)
    matches both patterns, and so do hour 29 and week 99. *)
Theorem out_of_range_values_accepted :
  (∀ input, Grammar.datetime input → accepted_by_both input) ∧
  (∀ yr mo da hr mi se,
     digit_string 4 yr → digit_string 2 mo → digit_string 2 da →
     digit_string 2 hr → digit_string 2 mi → digit_string 2 se →
     let input := yr ++ utf16 "-" ++ mo ++ utf16 "-" ++ da ++ utf16 "T"
                  ++ hr ++ utf16 ":" ++ mi ++ utf16 ":" ++ se in
     accepted_by_both input ∧
     ∃ m, exec regex_iso8601_datetime input = Some m ∧
          group "year" m = Some yr ∧ group "month" m = Some mo ∧
          group "day" m = Some da ∧ group "hour" m = Some hr ∧
          group "minute" m = Some mi ∧ group "second" m = Some se) ∧
  accepted_by_both (utf16 "2020-13-99T12:34:56") ∧
  group "month" (the_match (utf16 "2020-13-99T12:34:56")) = Some (utf16 "13") ∧
  group "day" (the_match (utf16 "2020-13-99T12:34:56")) = Some (utf16 "99") ∧
  accepted_by_both (utf16 "2020-01-02T29:61:61") ∧
  accepted_by_both (utf16 "2020-W99-7T12:34:56") ∧
  accepted_by_both (utf16 "2020-999T12:34:56+99:99").
Proof.
  split; [|split; [|by_evaluation]].
  - intros input Hin%test_expanded_grammar. unfold accepted_by_both.
    by rewrite test_minimalist_expanded.
  - intros yr mo da hr mi se Hyr Hmo Hda Hhr Hmi Hse input.
    destruct (calendar_input_groups yr mo da hr mi se) as (m & Hm & Hg); try done.
    split; [|by exists m].
    unfold accepted_by_both. rewrite test_minimalist_expanded.
    split; apply bool_decide_eq_true; by exists m.
Qed.

Lemma out_of_range_values_accepted_witness :
  let input := utf16 "2020-20-99T30:70:99" in
  accepted_by_both input ∧
  ∃ m, exec regex_iso8601_datetime input = Some m ∧
       group "year" m = Some (utf16 "2020") ∧
       group "month" m = Some (utf16 "20") ∧
       group "day" m = Some (utf16 "99") ∧
       group "hour" m = Some (utf16 "30") ∧
       group "minute" m = Some (utf16 "70") ∧
       group "second" m = Some (utf16 "99").
Proof.
  apply (proj1 (proj2 out_of_range_values_accepted)
           (utf16 "2020") (utf16 "20") (utf16 "99")
           (utf16 "30") (utf16 "70") (utf16 "99"));
    (split; [reflexivity | by repeat constructor]).
Defined.
